(** * Error-diffusion dithering: a shallow embedding of [dithering.go]

    The development follows the Go source function by function:
    machine integers are [Z] with their wrap-around written out, the
    [color.Color] interface is seen through the four values its [RGBA]
    method returns, a [float32] is either a rational, an infinity or a
    NaN, and a run-time panic or a send that no receiver takes is an
    explicit outcome. *)

From Stdlib Require Import ZArith QArith Lia Bool.
From stdpp Require Import base list.

Local Open Scope Z_scope.

(** ** Machine integers *)

Module Int.

(** Conversion to an unsigned [w]-bit integer keeps the low [w] bits. *)
Definition u8 (z : Z) : Z := z mod 256.
Definition u16 (z : Z) : Z := z mod 65536.

(** Conversion to [int16]: the low 16 bits, read in two's complement. *)
Definition i16 (z : Z) : Z := (z + 32768) mod 65536 - 32768.

(** Go's [int] on a 64-bit platform. *)
Definition int (z : Z) : Z := (z + 2 ^ 63) mod 2 ^ 64 - 2 ^ 63.

End Int.

Import Int.

(** ** Colors

    [color.Color] is an interface with the single method [RGBA], which
    returns four [uint32] values; a [Color] is what that method returns. *)

Record Color : Type := mkColor { colR : Z; colG : Z; colB : Z; colA : Z }.

(** [color.RGBA]: four [uint8] fields. *)
Record RGBA : Type := mkRGBA { rgbaR : Z; rgbaG : Z; rgbaB : Z; rgbaA : Z }.

(** The [RGBA] method of [color.RGBA]: each field [v] becomes [v | v<<8]. *)
Definition RGBA_RGBA (c : RGBA) : Color :=
  mkColor (rgbaR c * 257) (rgbaG c * 257) (rgbaB c * 257) (rgbaA c * 257).

(** A [color.RGBA] value is well-typed when its fields are bytes. *)
Definition RGBA_wf (c : RGBA) : Prop :=
  0 <= rgbaR c < 256 /\ 0 <= rgbaG c < 256 /\
  0 <= rgbaB c < 256 /\ 0 <= rgbaA c < 256.

(** [color.Palette] is a slice of colors. *)
Abbreviation Palette := (list Color).

(** [color.Black] and [color.White] are [Gray16{0}] and [Gray16{0xffff}]. *)
Definition Black : Color := mkColor 0 0 0 65535.
Definition White : Color := mkColor 65535 65535 65535 65535.

(** ** float32

    Every [float32] is a rational, an infinity or a NaN.  Only values that
    binary32 represents exactly are ever built by the functions below, so
    no rounding function is needed for them. *)

Inductive float32 : Type :=
  | F32 (q : Q)
  | F32inf (negative : bool)
  | F32nan.

(** The comparison [v > 0.0]: false on NaN. *)
Definition f32_gt0 (v : float32) : bool :=
  match v with
  | F32 q => 0 <? Qnum q
  | F32inf negative => negb negative
  | F32nan => false
  end.

(** [float32(x)] for an [int16] [x]: exact. *)
Definition f32_of_int16 (x : Z) : float32 := F32 (inject_Z x).

(** A rational is a binary32 value when it is [m * 2^-k] with a
    24-bit significand.  (Exponents are far from the limits here.) *)
Definition binary32_exact (q : Q) : Prop :=
  exists m k : Z, Z.abs m < 2 ^ 24 /\ 0 <= k /\ (q * inject_Z (2 ^ k) == inject_Z m)%Q.

(** [int16(f)] for a finite [f] within range: truncation toward zero. *)
Definition int16_of_Q (q : Q) : Z := i16 (Z.quot (Qnum q) (Zpos (Qden q))).

(** ** PixelError

    The struct literal in [findColor] fixes the shape: four positional
    fields, the first three built from [float32] values. *)

Record PixelError : Type :=
  mkPixelError { peR : float32; peG : float32; peB : float32; peA : float32 }.

(** ** abs *)

Definition abs (x : Z) : Z :=
  if x <? 0 then u16 (i16 (- x)) else u16 x.

(** ** findColor *)

(** The low-pass filter: [int16(float32(int16(e)) * 0.75)]. *)
Definition lowpass (e : Z) : Z :=
  int16_of_Q (inject_Z (i16 e) * (3 # 4))%Q.

(** [int16(uint8(v))] *)
Definition chan8 (v : Z) : Z := i16 (u8 v).

(** The working value of one channel: [int16(uint8(pix)) + err]. *)
Definition working (e p : Z) : Z := i16 (chan8 p + lowpass e).

Definition distance (pixR pixG pixB : Z) (col : Color) : Z :=
  u16 (u16 (abs (i16 (pixR - chan8 (colR col)))
            + abs (i16 (pixG - chan8 (colG col))))
       + abs (i16 (pixB - chan8 (colB col)))).

(** The body of [for i, col := range pal]; [i] is the index of the head
    of [pal], [(index, minDiff)] the two loop-carried variables. *)
Fixpoint findColor_scan (pixR pixG pixB : Z) (pal : Palette)
    (i index : nat) (minDiff : Z) : nat * Z :=
  match pal with
  | [] => (index, minDiff)
  | col :: pal' =>
      let d := distance pixR pixG pixB col in
      if d <? minDiff
      then findColor_scan pixR pixG pixB pal' (S i) i d
      else findColor_scan pixR pixG pixB pal' (S i) index minDiff
  end.

(** [None] is the run-time panic of [pal[index]] on an index out of range. *)
Definition findColor (err pix : Color) (pal : Palette)
    : option (RGBA * PixelError * Z) :=
  let pixR := working (colR err) (colR pix) in
  let pixG := working (colG err) (colG pix) in
  let pixB := working (colB err) (colB pix) in
  let '(index, minDiff) := findColor_scan pixR pixG pixB pal 0 0 65535 in
  match pal !! index with
  | None => None
  | Some c =>
      let cR := chan8 (colR c) in
      let cG := chan8 (colG c) in
      let cB := chan8 (colB c) in
      Some (mkRGBA (u8 cR) (u8 cG) (u8 cB) 255,
            mkPixelError (f32_of_int16 (i16 (pixR - cR)))
                         (f32_of_int16 (i16 (pixG - cG)))
                         (f32_of_int16 (i16 (pixB - cB)))
                         (F32 (inject_Z 65535)),
            minDiff)
  end.

(** ** findShift *)

(** The inner loop [for j, v2 := range v1]; [j] is the index of the head.
    [Some s] is the early [return s]. *)
Fixpoint findShift_row (j : Z) (v1 : list float32) : option Z :=
  match v1 with
  | [] => None
  | v2 :: v1' =>
      if f32_gt0 v2 then Some (- j + 1) else findShift_row (j + 1) v1'
  end.

Fixpoint findShift (matrix : list (list float32)) : Z :=
  match matrix with
  | [] => 0
  | v1 :: matrix' =>
      match findShift_row 0 v1 with
      | Some s => s
      | None => findShift matrix'
      end
  end.

(** The kernels of the table whose weights binary32 holds exactly. *)
Definition FloydSteinberg : list (list float32) :=
  [ [F32 0; F32 0; F32 (7 # 16)];
    [F32 (3 # 16); F32 (5 # 16); F32 (1 # 16)] ].

Definition Atkinson : list (list float32) :=
  [ [F32 0; F32 0; F32 (1 # 8); F32 (1 # 8)];
    [F32 (1 # 8); F32 (1 # 8); F32 (1 # 8); F32 0];
    [F32 0; F32 (1 # 8); F32 0; F32 0] ].

Definition SierraLite : list (list float32) :=
  [ [F32 0; F32 0; F32 (2 # 4)];
    [F32 (1 # 4); F32 (1 # 4); F32 0] ].

(** ** The claims' vocabulary for the resolver *)

(** The Manhattan distance between a working value and a candidate's
    channels, as a sum over the integers. *)
Definition manhattan (wR wG wB : Z) (col : Color) : Z :=
  Z.abs (wR - u8 (colR col)) + Z.abs (wG - u8 (colG col))
  + Z.abs (wB - u8 (colB col)).

(** [ds !! i] is the minimum of [ds], and no earlier entry reaches it. *)
Definition first_minimum (ds : list Z) (i : nat) (m : Z) : Prop :=
  ds !! i = Some m
  /\ (forall j d, ds !! j = Some d -> m <= d)
  /\ (forall j d, (j < i)%nat -> ds !! j = Some d -> m < d).

(** The color [findColor] builds from a palette entry: the low byte of
    each channel, with full alpha. *)
Definition entry_color (c : Color) : RGBA :=
  mkRGBA (u8 (colR c)) (u8 (colG c)) (u8 (colB c)) 255.

(** Three quarters of an [int16] error, truncated toward zero. *)
Definition damped (e : Z) : Z := Z.quot (i16 e * 3) 4.

(** Loop invariant of the palette scan over the prefix [pre] already
    visited, for the distance function [dist]. *)
Definition scan_inv (dist : Color -> Z) (pre : list Color)
    (index : nat) (m : Z) : Prop :=
  (forall j d, (dist <$> pre) !! j = Some d -> m <= d)
  /\ (forall j d, (j < index)%nat -> (dist <$> pre) !! j = Some d -> m < d)
  /\ ((pre = [] /\ index = 0%nat /\ m = 65535)
      \/ (dist <$> pre) !! index = Some m).

(** ** Geometry: [image.Point] and [image.Rectangle] *)

Record Point : Type := mkPoint { ptX : Z; ptY : Z }.

Record Rectangle : Type := mkRectangle { rMin : Point; rMax : Point }.

Definition Rect (x0 y0 x1 y1 : Z) : Rectangle :=
  mkRectangle (mkPoint x0 y0) (mkPoint x1 y1).

Definition Dx (r : Rectangle) : Z := int (ptX (rMax r) - ptX (rMin r)).
Definition Dy (r : Rectangle) : Z := int (ptY (rMax r) - ptY (rMin r)).

(** [image.Point{x, y}.In(r)] *)
Definition Point_In (x y : Z) (r : Rectangle) : bool :=
  (ptX (rMin r) <=? x) && (x <? ptX (rMax r))
  && (ptY (rMin r) <=? y) && (y <? ptY (rMax r)).

(** The pixels of a rectangle in the order of the two nested loops of
    [Draw]: rows top to bottom, each row left to right. *)
Definition columns (r : Rectangle) : list Z :=
  seqZ (ptX (rMin r)) (ptX (rMax r) - ptX (rMin r)).

Definition rows (r : Rectangle) : list Z :=
  seqZ (ptY (rMin r)) (ptY (rMax r) - ptY (rMin r)).

Definition pixels (r : Rectangle) : list (Z * Z) :=
  concat ((fun y => (fun x => (x, y)) <$> columns r) <$> rows r).

(** ** The error buffer *)

(** The zero value [PixelError{}]. *)
Definition zeroError : PixelError :=
  mkPixelError (F32 0) (F32 0) (F32 0) (F32 0).

(** Modelled from the spec: the error buffer ([NewErrorImage],
    [PixelErrorAt], [SetPixelError]) is declared outside [dithering.go].
    The spec describes a 2-D grid of errors sized to the rectangle being
    processed, addressed by image coordinates; a write outside the
    rectangle is discarded, a read outside it or of a cell never written
    yields the zero error. *)
Record ErrorImage : Type :=
  mkErrorImage { eiRect : Rectangle; eiGrid : list (list PixelError) }.

Definition NewErrorImage (r : Rectangle) : ErrorImage :=
  mkErrorImage r
    (replicate (Z.to_nat (Dy r)) (replicate (Z.to_nat (Dx r)) zeroError)).

(** Row and column of a coordinate inside the grid. *)
Definition gridRow (p : ErrorImage) (y : Z) : nat :=
  Z.to_nat (y - ptY (rMin (eiRect p))).

Definition gridCol (p : ErrorImage) (x : Z) : nat :=
  Z.to_nat (x - ptX (rMin (eiRect p))).

Definition PixelErrorAt (p : ErrorImage) (x y : Z) : PixelError :=
  if Point_In x y (eiRect p)
  then match eiGrid p !! gridRow p y with
       | Some row => default zeroError (row !! gridCol p x)
       | None => zeroError
       end
  else zeroError.

Definition SetPixelError (p : ErrorImage) (x y : Z) (c : PixelError)
    : ErrorImage :=
  if Point_In x y (eiRect p)
  then mkErrorImage (eiRect p)
         (alter (fun row => <[gridCol p x := c]> row) (gridRow p y) (eiGrid p))
  else p.

(** A sequence of writes, oldest first. *)
Definition writeErrors (p : ErrorImage) (ws : list (Z * Z * PixelError))
    : ErrorImage :=
  foldl (fun q w => SetPixelError q w.1.1 w.1.2 w.2) p ws.

(** ** The destination surface *)

(** [image.Paletted] of the standard library, seen through its bounds,
    its palette and the index stored at each point, for an image whose
    points do not share storage (one built by [image.NewPaletted] or cut
    from it by [SubImage]). *)
Record Paletted : Type :=
  mkPaletted { palRect : Rectangle; palPalette : list Color;
               palPix : Z -> Z -> Z }.

Definition ColorIndexAt (p : Paletted) (x y : Z) : Z :=
  if Point_In x y (palRect p) then palPix p x y else 0.

(** ** What [Draw] leaves to its collaborators

    - the methods of [PixelError], declared outside [dithering.go]: its
      [RGBA] method (it is passed to [findColor] as a [color.Color]),
      [Add] and [Mul];
    - [color.Palette.Index] of the standard library, which [Set] calls;
    - the destinations that are not an [image.Paletted];
    - the receivers of the unbuffered animation channel: [None] when
      they take every frame sent during the call, [Some n] when they take
      [n] frames and no more. *)
Class Collaborators : Type := {
  PixelError_RGBA : PixelError -> Color;
  PixelError_Add : PixelError -> PixelError -> PixelError;
  PixelError_Mul : PixelError -> float32 -> PixelError;
  Palette_Index : list Color -> Color -> Z;
  OtherImage : Type;
  receivers : option nat
}.

(** ** Outcomes and loops *)

(** A computation on a state returns, panics, or blocks for ever on a
    send that no receiver takes; the state reached is kept in each
    case. *)
Inductive outcome (S : Type) : Type :=
  | Returned (s : S)
  | Panicked (s : S)
  | Blocked (s : S).

Arguments Returned {S} s.
Arguments Panicked {S} s.
Arguments Blocked {S} s.

Definition state_of {S : Type} (o : outcome S) : S :=
  match o with Returned s => s | Panicked s => s | Blocked s => s end.

Definition panicked {S : Type} (o : outcome S) : bool :=
  match o with Panicked _ => true | _ => false end.

Definition blocked {S : Type} (o : outcome S) : bool :=
  match o with Blocked _ => true | _ => false end.

Definition returned {S : Type} (o : outcome S) : bool :=
  match o with Returned _ => true | _ => false end.

(** A send on the unbuffered channel: [None] when no receiver is left to
    take the frame, else the receivers left after it. *)
Definition take_frame (r : option nat) : option (option nat) :=
  match r with
  | None => Some None
  | Some O => None
  | Some (S n) => Some (Some n)
  end.

(** A [for] loop over the values [xs], left at the first panic or at the
    first send that blocks. *)
Fixpoint for_each {A S : Type} (body : A -> S -> outcome S)
    (xs : list A) (s : S) : outcome S :=
  match xs with
  | [] => Returned s
  | x :: xs' =>
      match body x s with
      | Returned s' => for_each body xs' s'
      | Panicked s' => Panicked s'
      | Blocked s' => Blocked s'
      end
  end.

(** ** The engine *)

Record Dither : Type :=
  mkDither { Matrix : list (list float32); nbFrames : Z }.

(** The unbuffered channel of a [Dither] is observed through what is
    sent on it (see [PixelStep]) and through how many frames its
    receivers take (see [Collaborators]). *)
Definition NewDither (matrix : list (list float32)) : Dither :=
  mkDither matrix 1.

Definition NewDitherAnimation (matrix : list (list float32)) (nbFrames : Z)
    : Dither :=
  mkDither matrix nbFrames.

(** One iteration of the inner loop, as seen from outside: the point and
    color passed to [dst.Set], and the image that the send statement
    offers on the animation channel, if it is reached (the image as it is
    at that moment). *)
Record PixelStep : Type :=
  mkPixelStep { stX : Z; stY : Z; stColor : RGBA; stFrame : option Paletted }.

Definition sent (st : PixelStep) : bool :=
  match stFrame st with Some _ => true | None => false end.

Definition countFrames (log : list PixelStep) : nat :=
  length (filter (fun st => sent st = true) log).

Record DrawState : Type :=
  mkDrawState { dsDst : Paletted; dsErr : ErrorImage; dsLog : list PixelStep;
                dsReceives : option nat }.

(** What a call of [Draw] leaves behind: the destination, the error
    buffer if one was allocated, the iterations performed, whether the
    call ended in a run-time panic, and whether it is blocked for ever
    in its last send. *)
Record DrawResult `{Collaborators} : Type :=
  mkDrawResult { drDst : Paletted + OtherImage; drErr : option ErrorImage;
                 drLog : list PixelStep; drPanicked : bool;
                 drBlocked : bool }.

Arguments mkDrawResult {_} _ _ _ _ _.

(** [(rect.Dx() * rect.Dy()) / nbFrames], for [nbFrames] other than 0. *)
Definition pixPerFrame (rect : Rectangle) (nbFrames : Z) : Z :=
  int (Z.quot (int (Dx rect * Dy rect)) nbFrames).

(** The test [(y != 0 && x != 0) && ((y*rect.Dy())+x)%pixPerFrame == 0];
    [None] is the panic of [%] on a zero divisor, which the left operand
    of [&&] guards. *)
Definition frame_due (rect : Rectangle) (pixPerFrame x y : Z) : option bool :=
  if negb (y =? 0) && negb (x =? 0)
  then if pixPerFrame =? 0 then None
       else Some (Z.rem (int (int (y * Dy rect) + x)) pixPerFrame =? 0)
  else Some false.

Section Engine.

Context `{Collaborators}.

(** The [Set] method of [image.Paletted]: nothing outside the bounds, else the index
    of the palette entry closest to [c], as a [uint8]. *)
Definition Paletted_Set (p : Paletted) (x y : Z) (c : RGBA) : Paletted :=
  if Point_In x y (palRect p)
  then mkPaletted (palRect p) (palPalette p)
         (fun x' y' =>
            if (x' =? x) && (y' =? y)
            then u8 (Palette_Index (palPalette p) (RGBA_RGBA c))
            else palPix p x' y')
  else p.

(** The loop [for j, v2 := range v1] of the diffusion; row [i] of the
    kernel, [j] the index of the head of [v1]. *)
Fixpoint diffuse_row (shift x y i j : Z) (v1 : list float32)
    (err : ErrorImage) : ErrorImage :=
  match v1 with
  | [] => err
  | v2 :: v1' =>
      let tx := int (int (x + j) + shift) in
      let ty := int (y + i) in
      diffuse_row shift x y i (j + 1) v1'
        (SetPixelError err tx ty
           (PixelError_Add (PixelErrorAt err tx ty)
                           (PixelError_Mul (PixelErrorAt err x y) v2)))
  end.

(** The loop [for i, v1 := range dit.Matrix]. *)
Fixpoint diffuse (shift x y i : Z) (matrix : list (list float32))
    (err : ErrorImage) : ErrorImage :=
  match matrix with
  | [] => err
  | v1 :: matrix' =>
      diffuse shift x y (i + 1) matrix' (diffuse_row shift x y i 0 v1 err)
  end.

(** The body of the inner loop of [Draw]. *)
Definition Draw_pixel (dit : Dither) (rect : Rectangle)
    (src : Z -> Z -> Color) (p : list Color) (shift pixPerFrame : Z)
    (y x : Z) (s : DrawState) : outcome DrawState :=
  match findColor (PixelError_RGBA (PixelErrorAt (dsErr s) x y)) (src x y) p with
  | None => Panicked s
  | Some (r, e, _) =>
      let dst := Paletted_Set (dsDst s) x y r in
      let err := SetPixelError (dsErr s) x y e in
      match frame_due rect pixPerFrame x y with
      | None =>
          Panicked (mkDrawState dst err
                      (dsLog s ++ [mkPixelStep x y r None]) (dsReceives s))
      | Some false =>
          Returned (mkDrawState dst
                      (diffuse shift x y 0 (Matrix dit) err)
                      (dsLog s ++ [mkPixelStep x y r None]) (dsReceives s))
      | Some true =>
          (* dit.animation <- dst *)
          match take_frame (dsReceives s) with
          | None =>
              Blocked (mkDrawState dst err
                         (dsLog s ++ [mkPixelStep x y r (Some dst)])
                         (dsReceives s))
          | Some rest =>
              Returned (mkDrawState dst
                          (diffuse shift x y 0 (Matrix dit) err)
                          (dsLog s ++ [mkPixelStep x y r (Some dst)]) rest)
          end
      end
  end.

(** The two nested loops of [Draw]. *)
Definition Draw_loops (dit : Dither) (rect : Rectangle)
    (src : Z -> Z -> Color) (p : list Color) (shift pixPerFrame : Z)
    (s : DrawState) : outcome DrawState :=
  for_each
    (fun y => for_each (Draw_pixel dit rect src p shift pixPerFrame y)
                       (columns rect))
    (rows rect) s.

Definition Draw (dit : Dither) (dst : Paletted + OtherImage)
    (rect : Rectangle) (src : Z -> Z -> Color) : DrawResult :=
  match dst with
  | inr _ => mkDrawResult dst None [] false false
  | inl d =>
      let p := palPalette d in
      let err := NewErrorImage rect in
      let shift := findShift (Matrix dit) in
      if nbFrames dit =? 0
      then mkDrawResult dst (Some err) [] true false
      else
        let o := Draw_loops dit rect src p shift
                   (pixPerFrame rect (nbFrames dit))
                   (mkDrawState d err [] receivers) in
        mkDrawResult (inl (dsDst (state_of o))) (Some (dsErr (state_of o)))
                     (dsLog (state_of o)) (panicked o) (blocked o)
  end.

(** The destination after the writes of a log, replayed in order. *)
Definition replay (d : Paletted) (log : list PixelStep) : Paletted :=
  foldl (fun q st => Paletted_Set q (stX st) (stY st) (stColor st)) d log.

End Engine.

(** What every state of the scan satisfies: the destination is the
    original one after the logged writes, every logged point lies in the
    rectangle, and a frame was sent exactly where the test of [Draw]
    holds. *)
Definition log_ok `{Collaborators} (rect : Rectangle) (ppf : Z) (d : Paletted)
    (s : DrawState) : Prop :=
  dsDst s = replay d (dsLog s)
  /\ forall st, st ∈ dsLog s ->
       Point_In (stX st) (stY st) rect = true
       /\ (sent st = true <-> frame_due rect ppf (stX st) (stY st) = Some true).

(** The points of a log, in order. *)
Definition points (log : list PixelStep) : list (Z * Z) :=
  (fun st => (stX st, stY st)) <$> log.

(** ** A concrete choice of collaborators, to run the engine

    Errors are added and scaled as rationals (no rounding), an error is
    read as a color by truncating each channel to an integer, a palette
    lookup returns the first entry at the least sum of squared channel
    differences, the only other destination is [tt], and every frame
    sent is received. *)
Module Sample.

Definition add (a b : float32) : float32 :=
  match a, b with
  | F32 p, F32 q => F32 (Qred (p + q))
  | _, _ => F32nan
  end.

Definition mul (a b : float32) : float32 :=
  match a, b with
  | F32 p, F32 q => F32 (Qred (p * q))
  | _, _ => F32nan
  end.

Definition trunc (a : float32) : Z :=
  match a with
  | F32 q => Z.quot (Qnum q) (Zpos (Qden q)) mod 2 ^ 32
  | _ => 0
  end.

Definition sqDiff (x y : Z) : Z := ((x - y) * (x - y)) mod 2 ^ 32 / 4.

Fixpoint index_scan (c : Color) (pal : list Color) (i ret best : Z) : Z :=
  match pal with
  | [] => ret
  | v :: pal' =>
      let sum := (sqDiff (colR c) (colR v) + sqDiff (colG c) (colG v)
                  + sqDiff (colB c) (colB v) + sqDiff (colA c) (colA v))
                 mod 2 ^ 32 in
      if sum <? best
      then if sum =? 0 then i else index_scan c pal' (i + 1) i sum
      else index_scan c pal' (i + 1) ret best
  end.

Definition collaborators : Collaborators :=
  {| PixelError_RGBA := fun e =>
       mkColor (trunc (peR e)) (trunc (peG e)) (trunc (peB e)) (trunc (peA e));
     PixelError_Add := fun a b =>
       mkPixelError (add (peR a) (peR b)) (add (peG a) (peG b))
                    (add (peB a) (peB b)) (add (peA a) (peA b));
     PixelError_Mul := fun a v =>
       mkPixelError (mul (peR a) v) (mul (peG a) v)
                    (mul (peB a) v) (mul (peA a) v);
     Palette_Index := fun pal c => index_scan c pal 0 0 (2 ^ 32 - 1);
     OtherImage := unit;
   receivers := None |}.

(** The same collaborators when nobody receives on the channel. *)
Definition unattended : Collaborators :=
  {| PixelError_RGBA := @PixelError_RGBA collaborators;
     PixelError_Add := @PixelError_Add collaborators;
     PixelError_Mul := @PixelError_Mul collaborators;
     Palette_Index := @Palette_Index collaborators;
     OtherImage := unit;
     receivers := Some 0%nat |}.

(** A constant mid-gray source and a black-and-white destination. *)
Definition gray : Z -> Z -> Color := fun _ _ => mkColor 32896 32896 32896 65535.

Definition blank (r : Rectangle) : Paletted :=
  mkPaletted r [Black; White] (fun _ _ => 0).

End Sample.

(** ** Statements of the claims that the code does not meet *)

(** The statement of claim C1 at one input: the chosen color is the first
    palette entry at the least Manhattan distance from the working value,
    and the returned distance is that distance. *)
Definition picks_first_manhattan_minimum (err pix : Color) (pal : list Color)
    : Prop :=
  let wR := working (colR err) (colR pix) in
  let wG := working (colG err) (colG pix) in
  let wB := working (colB err) (colB pix) in
  exists (i : nat) (col : Color) (e : PixelError),
    pal !! i = Some col
    /\ first_minimum (manhattan wR wG wB <$> pal) i (manhattan wR wG wB col)
    /\ findColor err pix pal = Some (entry_color col, e, manhattan wR wG wB col).

(** The statement of claim C2 at one input, the damped error being three
    quarters of the accumulated error (the [int16] that [findColor]
    reads), as a rational. *)
Definition residual_is_exact (err pix entry : Color) : Prop :=
  exists (qR qG qB : Q) (a : float32) (d : Z),
    findColor err pix [entry]
    = Some (entry_color entry, mkPixelError (F32 qR) (F32 qG) (F32 qB) a, d)
    /\ (qR == inject_Z (u8 (colR pix)) + (3 # 4) * inject_Z (i16 (colR err))
              - inject_Z (u8 (colR entry)))%Q
    /\ (qG == inject_Z (u8 (colG pix)) + (3 # 4) * inject_Z (i16 (colG err))
              - inject_Z (u8 (colG entry)))%Q
    /\ (qB == inject_Z (u8 (colB pix)) + (3 # 4) * inject_Z (i16 (colB err))
              - inject_Z (u8 (colB entry)))%Q.
(** * Properties *)

(** ** Machine integers: ranges *)

Section IntFacts.

Lemma u8_range z : 0 <= u8 z < 256.
Proof. unfold u8. apply Z.mod_pos_bound. lia. Qed.

Lemma u16_range z : 0 <= u16 z < 65536.
Proof. unfold u16. apply Z.mod_pos_bound. lia. Qed.

Lemma i16_range z : -32768 <= i16 z < 32768.
Proof.
  unfold i16. pose proof (Z.mod_pos_bound (z + 32768) 65536). lia.
Qed.

Lemma u8_small z : 0 <= z < 256 -> u8 z = z.
Proof. intros. unfold u8. apply Z.mod_small. lia. Qed.

Lemma u16_small z : 0 <= z < 65536 -> u16 z = z.
Proof. intros. unfold u16. apply Z.mod_small. lia. Qed.

Lemma i16_small z : -32768 <= z < 32768 -> i16 z = z.
Proof. intros. unfold i16. rewrite Z.mod_small; lia. Qed.

Lemma int_small z : - 2 ^ 63 <= z < 2 ^ 63 -> int z = z.
Proof. intros. unfold int. rewrite Z.mod_small; lia. Qed.

End IntFacts.

Example findShift_FloydSteinberg : findShift FloydSteinberg = -1.
Proof. reflexivity. Qed.

Example findColor_gray :
  findColor (mkColor 0 0 0 0) (mkColor 200 100 50 255) [Black; White]
  = Some (mkRGBA 0 0 0 255,
          mkPixelError (F32 200) (F32 100) (F32 50) (F32 65535), 350).
Proof. reflexivity. Qed.

(** ** Arithmetic of [findColor]: nothing overflows in 16 bits *)

Section FindColorArith.

Lemma quot4_bounds (n : Z) :
  -98304 <= n <= 98301 -> -24576 <= Z.quot n 4 <= 24575.
Proof.
  intros Hn. Z.to_euclidean_division_equations. lia.
Qed.

Lemma lowpass_eq (e : Z) : lowpass e = Z.quot (i16 e * 3) 4.
Proof.
  unfold lowpass, int16_of_Q. cbn [Qnum Qden Qmult inject_Z].
  change (Z.pos (1 * 4)) with 4.
  apply i16_small.
  pose proof (i16_range e).
  pose proof (quot4_bounds (i16 e * 3)). lia.
Qed.

Lemma lowpass_range (e : Z) : -24576 <= lowpass e <= 24575.
Proof.
  rewrite lowpass_eq. apply quot4_bounds. pose proof (i16_range e). lia.
Qed.

(** The product [float32(int16(e)) * 0.75] is a binary32 value, so the
    float32 multiplication returns it unrounded. *)
Lemma lowpass_product_exact (e : Z) :
  binary32_exact (inject_Z (i16 e) * (3 # 4))%Q.
Proof.
  exists (i16 e * 3), 2. pose proof (i16_range e).
  split; [| split]; [lia | lia |].
  unfold Qeq. cbn. lia.
Qed.

Lemma chan8_eq (v : Z) : chan8 v = u8 v.
Proof. unfold chan8. apply i16_small. pose proof (u8_range v). lia. Qed.

Lemma working_eq (e p : Z) : working e p = u8 p + lowpass e.
Proof.
  unfold working. rewrite chan8_eq. apply i16_small.
  pose proof (u8_range p). pose proof (lowpass_range e). lia.
Qed.

Lemma working_range (e p : Z) : -24576 <= working e p <= 24830.
Proof.
  rewrite working_eq.
  pose proof (u8_range p). pose proof (lowpass_range e). lia.
Qed.

Lemma abs_eq (x : Z) : -32768 < x < 32768 -> abs x = Z.abs x.
Proof.
  intros Hx. unfold abs. destruct (Z.ltb_spec x 0).
  - rewrite i16_small by lia. rewrite u16_small by lia. lia.
  - rewrite u16_small by lia. lia.
Qed.

Lemma residual_eq (e p c : Z) :
  i16 (working e p - chan8 c) = u8 p + lowpass e - u8 c.
Proof.
  rewrite working_eq, chan8_eq. apply i16_small.
  pose proof (u8_range p). pose proof (u8_range c).
  pose proof (lowpass_range e). lia.
Qed.

End FindColorArith.

(** ** What the palette scan computes *)

Section FindColorScan.

Variables pixR pixG pixB : Z.

Let dist := distance pixR pixG pixB.

Lemma distance_range col : 0 <= dist col <= 65535.
Proof. unfold dist, distance. pose proof (u16_range
  (u16 (abs (i16 (pixR - chan8 (colR col))) + abs (i16 (pixG - chan8 (colG col))))
   + abs (i16 (pixB - chan8 (colB col))))). lia.
Qed.

Lemma scan_inv_init : scan_inv dist [] 0 65535.
Proof.
  split; [| split]; [intros j d H; discriminate | intros j d H; lia | left; auto].
Qed.

Lemma scan_inv_step pre index m col :
  scan_inv dist pre index m ->
  let d := dist col in
  scan_inv dist (pre ++ [col])
           (if d <? m then length pre else index)
           (if d <? m then d else m).
Proof.
  intros (Hmin & Hfirst & Hat) d.
  assert (Hlen : length (dist <$> pre) = length pre) by apply length_fmap.
  assert (Hlook : forall j d',
            (dist <$> (pre ++ [col])) !! j = Some d' ->
            ((j < length pre)%nat /\ (dist <$> pre) !! j = Some d')
            \/ (j = length pre /\ d' = d)).
  { intros j d' Hj. rewrite fmap_app in Hj.
    destruct (decide (j < length pre)%nat) as [Hlt|Hge].
    - left. split; [exact Hlt|]. rewrite lookup_app_l in Hj by lia. exact Hj.
    - right. rewrite lookup_app_r in Hj by lia. rewrite Hlen in Hj.
      destruct (j - length pre)%nat as [|k] eqn:Hk; cbn in Hj.
      + injection Hj as <-. split; [lia | reflexivity].
      + discriminate. }
  assert (Hnew : (dist <$> (pre ++ [col])) !! length pre = Some d).
  { rewrite fmap_app, lookup_app_r by lia. rewrite Hlen, Nat.sub_diag.
    reflexivity. }
  destruct (Z.ltb_spec d m) as [Hlt|Hge].
  - split; [| split].
    + intros j d' Hj. destruct (Hlook j d' Hj) as [[_ Hp]|[_ ->]]; [|lia].
      specialize (Hmin j d' Hp). lia.
    + intros j d' Hji Hj. destruct (Hlook j d' Hj) as [[_ Hp]|[-> _]]; [|lia].
      specialize (Hmin j d' Hp). lia.
    + right. exact Hnew.
  - split; [| split].
    + intros j d' Hj. destruct (Hlook j d' Hj) as [[_ Hp]|[_ ->]]; [|lia].
      exact (Hmin j d' Hp).
    + intros j d' Hji Hj. destruct (Hlook j d' Hj) as [[_ Hp]|[-> _]].
      * exact (Hfirst j d' Hji Hp).
      * destruct Hat as [(_ & -> & _)|Hat]; [lia|].
        apply lookup_lt_Some in Hat. lia.
    + right. destruct Hat as [(-> & -> & ->)|Hat].
      * cbn. f_equal. pose proof (distance_range col). fold d in H. lia.
      * rewrite fmap_app, lookup_app_l; [exact Hat|].
        apply lookup_lt_Some in Hat. exact Hat.
Qed.

Lemma findColor_scan_inv pal : forall pre index m,
  scan_inv dist pre index m ->
  scan_inv dist (pre ++ pal)
    (fst (findColor_scan pixR pixG pixB pal (length pre) index m))
    (snd (findColor_scan pixR pixG pixB pal (length pre) index m)).
Proof.
  induction pal as [|col pal IH]; intros pre index m Hinv.
  - rewrite app_nil_r. exact Hinv.
  - pose proof (scan_inv_step pre index m col Hinv) as Hstep.
    cbn zeta in Hstep. cbn [findColor_scan]. fold dist.
    replace (pre ++ col :: pal) with ((pre ++ [col]) ++ pal)
      by (rewrite <- app_assoc; reflexivity).
    replace (S (length pre)) with (length (pre ++ [col]))
      by (rewrite length_app; cbn; lia).
    destruct (dist col <? m); apply IH; exact Hstep.
Qed.

(** On a non-empty palette the scan ends on the first minimum of the
    16-bit distances. *)
Lemma findColor_scan_first_minimum pal :
  pal <> [] ->
  first_minimum (dist <$> pal)
    (fst (findColor_scan pixR pixG pixB pal 0 0 65535))
    (snd (findColor_scan pixR pixG pixB pal 0 0 65535)).
Proof.
  intros Hne.
  destruct (findColor_scan_inv pal [] 0%nat 65535 scan_inv_init)
    as (Hmin & Hfirst & Hat).
  cbn [app length] in *.
  destruct Hat as [(-> & _)|Hat]; [congruence|].
  split; [exact Hat | split; [exact Hmin | exact Hfirst]].
Qed.

End FindColorScan.

(** ** The resolver on its whole input *)

Section FindColorSpec.

Variables err pix : Color.

Let wR := working (colR err) (colR pix).
Let wG := working (colG err) (colG pix).
Let wB := working (colB err) (colB pix).

(** The 16-bit sum is the Manhattan distance modulo [2^16]. *)
Lemma distance_manhattan col :
  distance wR wG wB col = u16 (manhattan wR wG wB col).
Proof.
  unfold distance, manhattan.
  pose proof (working_range (colR err) (colR pix)) as HR.
  pose proof (working_range (colG err) (colG pix)) as HG.
  pose proof (working_range (colB err) (colB pix)) as HB.
  fold wR in HR. fold wG in HG. fold wB in HB.
  pose proof (u8_range (colR col)). pose proof (u8_range (colG col)).
  pose proof (u8_range (colB col)).
  rewrite !chan8_eq.
  rewrite !i16_small by lia. rewrite !abs_eq by lia.
  unfold u16. rewrite Zplus_mod_idemp_l. reflexivity.
Qed.

Lemma distance_manhattan_small col :
  manhattan wR wG wB col < 65536 ->
  distance wR wG wB col = manhattan wR wG wB col.
Proof.
  intros Hm. rewrite distance_manhattan. apply u16_small.
  unfold manhattan in *. lia.
Qed.

(** Unfolding of [findColor] once the scan has been run. *)
Lemma findColor_unfold pal :
  findColor err pix pal =
  match pal !! fst (findColor_scan wR wG wB pal 0 0 65535) with
  | None => None
  | Some c =>
      Some (entry_color c,
            mkPixelError
              (f32_of_int16 (u8 (colR pix) + lowpass (colR err) - u8 (colR c)))
              (f32_of_int16 (u8 (colG pix) + lowpass (colG err) - u8 (colG c)))
              (f32_of_int16 (u8 (colB pix) + lowpass (colB err) - u8 (colB c)))
              (F32 (inject_Z 65535)),
            snd (findColor_scan wR wG wB pal 0 0 65535))
  end.
Proof.
  unfold findColor. fold wR wG wB.
  destruct (findColor_scan wR wG wB pal 0 0 65535) as [index minDiff].
  cbn [fst snd]. destruct (pal !! index) as [c|]; [|reflexivity].
  unfold wR, wG, wB. rewrite !residual_eq.
  unfold entry_color. rewrite !chan8_eq.
  rewrite !(u8_small (u8 _)) by apply u8_range. reflexivity.
Qed.

(** For every non-empty palette the resolver returns the first entry
    that minimises the 16-bit distance, and that distance. *)
Lemma findColor_first_minimum16 pal :
  pal <> [] ->
  exists (i : nat) (col : Color) (e : PixelError),
    pal !! i = Some col
    /\ first_minimum (distance wR wG wB <$> pal) i (distance wR wG wB col)
    /\ findColor err pix pal = Some (entry_color col, e, distance wR wG wB col).
Proof.
  intros Hne.
  pose proof (findColor_scan_first_minimum wR wG wB pal Hne) as Hfm.
  rewrite findColor_unfold.
  destruct (findColor_scan wR wG wB pal 0 0 65535) as [index m].
  cbn [fst snd] in *.
  pose proof Hfm as (Hat & _ & _).
  rewrite list_lookup_fmap in Hat.
  destruct (pal !! index) as [col|] eqn:Hcol; [|discriminate].
  cbn in Hat. injection Hat as <-.
  eexists index, col, _. split; [exact Hcol|]. split; [exact Hfm|reflexivity].
Qed.

Lemma findColor_empty : findColor err pix [] = None.
Proof. reflexivity. Qed.

End FindColorSpec.

(** ** Claims about the resolver *)

(** C1, as stated, fails: the three absolute differences are summed in
    16 bits.  With an accumulated error of (-32768, -32768, -21333) on a
    black pixel, black is at Manhattan distance 65151 and white at 65916,
    which wraps to 380; white is chosen and 380 returned. *)
Lemma findColor_wraps_distance :
  ~ picks_first_manhattan_minimum
      (mkColor 32768 32768 44203 0) (mkColor 0 0 0 65535)
      [mkColor 0 0 0 65535; mkColor 255 255 255 65535].
Proof.
  intros (i & col & e & Hcol & _ & Hfind).
  destruct i as [|[|i]]; cbn in Hcol; [| | discriminate];
    injection Hcol as <-; vm_compute in Hfind; discriminate.
Qed.

(** C1 (amended): for every non-empty palette, accumulated error and
    source pixel, when every candidate's Manhattan distance from the
    error-adjusted working value is below 2^16, [findColor] returns the
    first candidate, in palette order, at the least Manhattan distance,
    together with that distance. *)
Theorem findColor_first_manhattan_minimum (err pix : Color) (pal : list Color) :
  pal <> [] ->
  (forall col, col ∈ pal ->
     manhattan (working (colR err) (colR pix)) (working (colG err) (colG pix))
               (working (colB err) (colB pix)) col < 65536) ->
  picks_first_manhattan_minimum err pix pal.
Proof.
  intros Hne Hsmall. unfold picks_first_manhattan_minimum. cbn zeta.
  destruct (findColor_first_minimum16 err pix pal Hne)
    as (i & col & e & Hcol & Hfm & Hfind).
  assert (Heq : forall c, c ∈ pal ->
            distance (working (colR err) (colR pix))
                     (working (colG err) (colG pix))
                     (working (colB err) (colB pix)) c
            = manhattan (working (colR err) (colR pix))
                        (working (colG err) (colG pix))
                        (working (colB err) (colB pix)) c).
  { intros c Hc. apply distance_manhattan_small, Hsmall, Hc. }
  assert (Hin : col ∈ pal) by (apply list_elem_of_lookup; eauto).
  exists i, col, e. split; [exact Hcol|].
  rewrite <- (Heq col Hin). split; [|exact Hfind].
  erewrite <- list_fmap_ext; [exact Hfm|]. intros j c Hj. cbn.
  apply Heq. apply list_elem_of_lookup. eauto.
Qed.

(** The distances stay below 2^16 when each channel of the accumulated
    error, read as an [int16], is within 28787 of zero. *)
Lemma manhattan_small (err pix col : Color) :
  Z.abs (i16 (colR err)) <= 28787 ->
  Z.abs (i16 (colG err)) <= 28787 ->
  Z.abs (i16 (colB err)) <= 28787 ->
  manhattan (working (colR err) (colR pix)) (working (colG err) (colG pix))
            (working (colB err) (colB pix)) col < 65536.
Proof.
  intros HR HG HB. unfold manhattan. rewrite !working_eq, !lowpass_eq.
  pose proof (u8_range (colR pix)). pose proof (u8_range (colG pix)).
  pose proof (u8_range (colB pix)). pose proof (u8_range (colR col)).
  pose proof (u8_range (colG col)). pose proof (u8_range (colB col)).
  assert (Hq : forall n, Z.abs n <= 28787 -> Z.abs (Z.quot (n * 3) 4) <= 21590).
  { intros n Hn. Z.to_euclidean_division_equations. lia. }
  pose proof (Hq _ HR). pose proof (Hq _ HG). pose proof (Hq _ HB). lia.
Qed.

Lemma findColor_first_manhattan_minimum_witness :
  [Black; White] <> []
  /\ picks_first_manhattan_minimum
       (mkColor 0 0 0 0) (mkColor 200 100 50 65535) [Black; White].
Proof.
  split; [discriminate|].
  apply findColor_first_manhattan_minimum.
  - discriminate.
  - intros col Hcol.
    repeat (apply elem_of_cons in Hcol as [->|Hcol]);
      [vm_compute; reflexivity .. | apply elem_of_nil in Hcol; contradiction].
Defined.

(** C2, as stated, fails: the damped error is truncated to an integer
    before it is added.  With an accumulated error of 1 on the red
    channel, a black pixel and the palette {black}, the residual is 0,
    not 0 + 0.75 - 0. *)
Lemma findColor_truncates_damped_error :
  ~ residual_is_exact (mkColor 1 0 0 0) Black Black.
Proof.
  intros (qR & qG & qB & a & d & Hfind & HR & _).
  vm_compute in Hfind. injection Hfind as <- <- <- <- <-.
  vm_compute in HR. discriminate.
Qed.

Lemma u8_mul_257 (v : Z) : u8 (v * 257) = u8 v.
Proof.
  unfold u8. replace (v * 257) with (v + v * 256) by lia.
  apply Z_mod_plus_full.
Qed.

(** An opaque 8-bit color is returned as it is. *)
Lemma entry_color_opaque (r g b : Z) :
  entry_color (RGBA_RGBA (mkRGBA (u8 r) (u8 g) (u8 b) 255))
  = mkRGBA (u8 r) (u8 g) (u8 b) 255.
Proof.
  unfold entry_color, RGBA_RGBA. cbn [colR colG colB rgbaR rgbaG rgbaB].
  rewrite !u8_mul_257, !(u8_small (u8 _)) by apply u8_range. reflexivity.
Qed.

(** C2 (amended): for every source pixel, accumulated error and
    single-entry palette, [findColor] returns the entry's 8-bit channels
    with full alpha, which is the entry itself when it is an opaque 8-bit
    color, and the residual error per channel is
    (sourceChannel + dampedError) - entryChannel, where dampedError is
    three quarters of the accumulated error (read as an [int16])
    truncated toward zero to an integer. *)
Theorem findColor_single_entry (err pix entry : Color) (r g b : Z) :
  findColor err pix [entry]
  = Some (entry_color entry,
          mkPixelError
            (f32_of_int16 (u8 (colR pix) + damped (colR err) - u8 (colR entry)))
            (f32_of_int16 (u8 (colG pix) + damped (colG err) - u8 (colG entry)))
            (f32_of_int16 (u8 (colB pix) + damped (colB err) - u8 (colB entry)))
            (F32 (inject_Z 65535)),
          distance (working (colR err) (colR pix)) (working (colG err) (colG pix))
                   (working (colB err) (colB pix)) entry)
  /\ fst (fst (default (entry_color entry, zeroError, 0)
                 (findColor err pix
                    [RGBA_RGBA (mkRGBA (u8 r) (u8 g) (u8 b) 255)])))
     = mkRGBA (u8 r) (u8 g) (u8 b) 255.
Proof.
  assert (Hone : forall c,
    findColor err pix [c]
    = Some (entry_color c,
            mkPixelError
              (f32_of_int16 (u8 (colR pix) + damped (colR err) - u8 (colR c)))
              (f32_of_int16 (u8 (colG pix) + damped (colG err) - u8 (colG c)))
              (f32_of_int16 (u8 (colB pix) + damped (colB err) - u8 (colB c)))
              (F32 (inject_Z 65535)),
            distance (working (colR err) (colR pix)) (working (colG err) (colG pix))
                     (working (colB err) (colB pix)) c)).
  { intros c. rewrite findColor_unfold. cbn [findColor_scan].
    pose proof (distance_range (working (colR err) (colR pix))
                  (working (colG err) (colG pix))
                  (working (colB err) (colB pix)) c) as Hd.
    unfold damped. rewrite <- !lowpass_eq.
    destruct (Z.ltb_spec
                (distance (working (colR err) (colR pix))
                   (working (colG err) (colG pix))
                   (working (colB err) (colB pix)) c) 65535) as [Hlt|Hge];
      cbn [fst snd lookup list_lookup]; [reflexivity|].
    do 2 f_equal. lia. }
  split; [apply Hone|].
  rewrite Hone. cbn [default fst]. apply entry_color_opaque.
Qed.

(** ** Kernel alignment *)

Section FindShift.

Local Abbreviation nonpositive := (fun w : float32 => f32_gt0 w = false).

(** On finite values the test is the order of the rationals. *)
Lemma f32_gt0_finite (q : Q) : f32_gt0 (F32 q) = true <-> (0 < q)%Q.
Proof.
  unfold f32_gt0, Qlt. cbn. rewrite Z.mul_1_r. apply Z.ltb_lt.
Qed.

Lemma findShift_row_none (v1 : list float32) : forall j,
  Forall nonpositive v1 -> findShift_row j v1 = None.
Proof.
  induction v1 as [|w v1 IH]; intros j Hall; [reflexivity|].
  inversion Hall as [|? ? Hw Hrest]; subst. cbn. rewrite Hw. apply IH, Hrest.
Qed.

Lemma findShift_row_first (left right : list float32) (v : float32) :
  forall j,
  Forall nonpositive left -> f32_gt0 v = true ->
  findShift_row j (left ++ v :: right)
  = Some (- (j + Z.of_nat (length left)) + 1).
Proof.
  induction left as [|w left IH]; intros j Hall Hv.
  - cbn. rewrite Hv. f_equal. lia.
  - inversion Hall as [|? ? Hw Hrest]; subst. cbn [app findShift_row].
    rewrite Hw, IH by assumption. f_equal. cbn [length]. lia.
Qed.

Lemma findShift_none (matrix : list (list float32)) :
  Forall (Forall nonpositive) matrix -> findShift matrix = 0.
Proof.
  induction matrix as [|v1 matrix IH]; intros Hall; [reflexivity|].
  inversion Hall as [|? ? Hrow Hrest]; subst. cbn.
  rewrite findShift_row_none by exact Hrow. apply IH, Hrest.
Qed.

Lemma findShift_first (above below : list (list float32))
    (left right : list float32) (v : float32) :
  Forall (Forall nonpositive) above ->
  Forall nonpositive left -> f32_gt0 v = true ->
  findShift (above ++ (left ++ v :: right) :: below)
  = - Z.of_nat (length left) + 1.
Proof.
  intros Habove Hleft Hv.
  induction above as [|v1 above IH]; cbn [app findShift].
  - rewrite (findShift_row_first left right v 0 Hleft Hv). reflexivity.
  - inversion Habove as [|? ? Hrow Hrest]; subst.
    rewrite findShift_row_none by exact Hrow. apply IH, Hrest.
Qed.

End FindShift.

(** C4: for every kernel matrix, [findShift] returns -(columnIndex) + 1
    for the first cell with strictly positive weight, rows scanned top to
    bottom and each row left to right, and 0 when no weight is strictly
    positive; a kernel whose first positive weight is at row 0, column 2
    yields -1. *)
Theorem findShift_first_positive (matrix : list (list float32)) :
  (forall above below left right v,
      matrix = above ++ (left ++ v :: right) :: below ->
      Forall (Forall (fun w => f32_gt0 w = false)) above ->
      Forall (fun w => f32_gt0 w = false) left ->
      f32_gt0 v = true ->
      findShift matrix = - Z.of_nat (length left) + 1)
  /\ (Forall (Forall (fun w => f32_gt0 w = false)) matrix ->
      findShift matrix = 0)
  /\ (forall a b v right below,
      matrix = (a :: b :: v :: right) :: below ->
      f32_gt0 a = false -> f32_gt0 b = false -> f32_gt0 v = true ->
      findShift matrix = -1).
Proof.
  split; [| split].
  - intros above below left right v -> Habove Hleft Hv.
    apply findShift_first; assumption.
  - apply findShift_none.
  - intros a b v right below -> Ha Hb Hv.
    apply (findShift_first [] below [a; b] right v).
    + constructor.
    + repeat constructor; assumption.
    + exact Hv.
Qed.

Lemma findShift_first_positive_witness :
  findShift FloydSteinberg = -1
  /\ findShift [[F32 0; F32 0]; [F32 0; F32 (-1 # 2)]] = 0.
Proof.
  split.
  - destruct (findShift_first_positive FloydSteinberg) as (_ & _ & Hcol2).
    apply (Hcol2 (F32 0) (F32 0) (F32 (7 # 16)) []
                 [[F32 (3 # 16); F32 (5 # 16); F32 (1 # 16)]]);
      reflexivity.
  - destruct (findShift_first_positive [[F32 0; F32 0]; [F32 0; F32 (-1 # 2)]])
      as (_ & Hzero & _).
    apply Hzero. repeat constructor.
Defined.

(** ** The error buffer *)

Section ErrorBuffer.

Lemma Point_In_spec (x y : Z) (r : Rectangle) :
  Point_In x y r = true <->
  ptX (rMin r) <= x < ptX (rMax r) /\ ptY (rMin r) <= y < ptY (rMax r).
Proof.
  unfold Point_In. rewrite !andb_true_iff, !Z.leb_le, !Z.ltb_lt. lia.
Qed.

Lemma PixelErrorAt_outside (p : ErrorImage) (x y : Z) :
  Point_In x y (eiRect p) = false -> PixelErrorAt p x y = zeroError.
Proof. intros Hout. unfold PixelErrorAt. rewrite Hout. reflexivity. Qed.

Lemma SetPixelError_outside (p : ErrorImage) (x y : Z) (c : PixelError) :
  Point_In x y (eiRect p) = false -> SetPixelError p x y c = p.
Proof. intros Hout. unfold SetPixelError. rewrite Hout. reflexivity. Qed.

Lemma SetPixelError_rect (p : ErrorImage) (x y : Z) (c : PixelError) :
  eiRect (SetPixelError p x y c) = eiRect p.
Proof. unfold SetPixelError. destruct (Point_In x y (eiRect p)); reflexivity. Qed.

Lemma writeErrors_rect (ws : list (Z * Z * PixelError)) : forall p,
  eiRect (writeErrors p ws) = eiRect p.
Proof.
  induction ws as [|w ws IH]; intros p; [reflexivity|].
  cbn. unfold writeErrors in IH. rewrite IH. apply SetPixelError_rect.
Qed.

Lemma writeErrors_snoc (p : ErrorImage) ws (w : Z * Z * PixelError) :
  writeErrors p (ws ++ [w])
  = SetPixelError (writeErrors p ws) w.1.1 w.1.2 w.2.
Proof. unfold writeErrors. rewrite foldl_snoc. reflexivity. Qed.

Lemma PixelErrorAt_new (r : Rectangle) (x y : Z) :
  PixelErrorAt (NewErrorImage r) x y = zeroError.
Proof.
  unfold PixelErrorAt, NewErrorImage. cbn [eiRect eiGrid].
  destruct (Point_In x y r); [|reflexivity].
  destruct (replicate _ _ !! _) as [row|] eqn:Hrow; [|reflexivity].
  apply lookup_replicate in Hrow as [-> _].
  destruct (replicate _ _ !! _) as [c|] eqn:Hc; [|reflexivity].
  apply lookup_replicate in Hc as [-> _]. reflexivity.
Qed.

(** A write leaves every other cell as it was. *)
Lemma PixelErrorAt_set_other (p : ErrorImage) (x y x' y' : Z) (c : PixelError) :
  (x', y') <> (x, y) ->
  PixelErrorAt (SetPixelError p x' y' c) x y = PixelErrorAt p x y.
Proof.
  intros Hne. unfold SetPixelError.
  destruct (Point_In x' y' (eiRect p)) eqn:Hin'; [|reflexivity].
  unfold PixelErrorAt. cbn [eiRect eiGrid].
  destruct (Point_In x y (eiRect p)) eqn:Hin; [|reflexivity].
  apply Point_In_spec in Hin, Hin'.
  unfold gridRow, gridCol. cbn [eiRect].
  destruct (decide (y' = y)) as [->|Hy].
  - assert (Hx : x' <> x) by congruence.
    rewrite list_lookup_alter_eq.
    destruct (eiGrid p !! _) as [row|]; [|reflexivity]. cbn.
    rewrite list_lookup_insert_ne by lia. reflexivity.
  - rewrite list_lookup_alter_ne by lia. reflexivity.
Qed.

Lemma PixelErrorAt_never_written (r : Rectangle) (x y : Z)
    (ws : list (Z * Z * PixelError)) :
  (forall w, w ∈ ws -> (w.1.1, w.1.2) <> (x, y)) ->
  PixelErrorAt (writeErrors (NewErrorImage r) ws) x y = zeroError.
Proof.
  induction ws as [|w ws IH] using rev_ind; intros Hnever.
  - apply PixelErrorAt_new.
  - rewrite writeErrors_snoc, PixelErrorAt_set_other.
    + apply IH. intros w' Hw'. apply Hnever, elem_of_app. left. exact Hw'.
    + apply Hnever, elem_of_app. right. apply list_elem_of_singleton. reflexivity.
Qed.

End ErrorBuffer.

(** C3: for every coordinate (x, y), negative ones included, reading a
    cell of the error buffer that was never written returns the zero
    error, and a write outside the rectangle is discarded: the buffer is
    left as it was, so that no read is affected and the coordinate itself
    still reads zero. *)
Theorem ErrorImage_unwritten_zero_outside_discarded
    (r : Rectangle) (ws : list (Z * Z * PixelError)) (x y : Z) (c : PixelError) :
  ((forall w, w ∈ ws -> (w.1.1, w.1.2) <> (x, y)) ->
   PixelErrorAt (writeErrors (NewErrorImage r) ws) x y = zeroError)
  /\ (Point_In x y r = false ->
      SetPixelError (writeErrors (NewErrorImage r) ws) x y c
      = writeErrors (NewErrorImage r) ws
      /\ PixelErrorAt (SetPixelError (writeErrors (NewErrorImage r) ws) x y c) x y
         = zeroError).
Proof.
  split.
  - apply PixelErrorAt_never_written.
  - intros Hout.
    assert (Hrect : Point_In x y (eiRect (writeErrors (NewErrorImage r) ws)) = false)
      by (rewrite writeErrors_rect; exact Hout).
    rewrite SetPixelError_outside by exact Hrect.
    split; [reflexivity|]. apply PixelErrorAt_outside, Hrect.
Qed.

Lemma ErrorImage_unwritten_zero_outside_discarded_witness :
  PixelErrorAt
    (writeErrors (NewErrorImage (Rect 0 0 2 2))
       [(0, 0, mkPixelError (F32 1) (F32 2) (F32 3) (F32 65535));
        (1, 1, mkPixelError (F32 4) (F32 5) (F32 6) (F32 65535))]) 1 0
  = zeroError
  /\ SetPixelError
       (writeErrors (NewErrorImage (Rect 0 0 2 2))
          [(0, 0, mkPixelError (F32 1) (F32 2) (F32 3) (F32 65535));
           (1, 1, mkPixelError (F32 4) (F32 5) (F32 6) (F32 65535))])
       (-1) 2 (mkPixelError (F32 7) (F32 7) (F32 7) (F32 65535))
     = writeErrors (NewErrorImage (Rect 0 0 2 2))
         [(0, 0, mkPixelError (F32 1) (F32 2) (F32 3) (F32 65535));
          (1, 1, mkPixelError (F32 4) (F32 5) (F32 6) (F32 65535))].
Proof.
  split.
  - destruct (ErrorImage_unwritten_zero_outside_discarded (Rect 0 0 2 2)
                [(0, 0, mkPixelError (F32 1) (F32 2) (F32 3) (F32 65535));
                 (1, 1, mkPixelError (F32 4) (F32 5) (F32 6) (F32 65535))]
                1 0 zeroError) as (Hread & _).
    apply Hread. intros w Hw.
    repeat (apply elem_of_cons in Hw as [->|Hw]);
      [discriminate .. | apply elem_of_nil in Hw; contradiction].
  - destruct (ErrorImage_unwritten_zero_outside_discarded (Rect 0 0 2 2)
                [(0, 0, mkPixelError (F32 1) (F32 2) (F32 3) (F32 65535));
                 (1, 1, mkPixelError (F32 4) (F32 5) (F32 6) (F32 65535))]
                (-1) 2 (mkPixelError (F32 7) (F32 7) (F32 7) (F32 65535)))
      as (_ & Hout).
    destruct Hout as (Hsame & _); [reflexivity | exact Hsame].
Defined.

(** ** The pixels of a rectangle *)

Section Grid.

Context {A B : Type}.

Lemma elem_of_grid (xs : list A) (ys : list B) (a : A) (b : B) :
  (a, b) ∈ concat ((fun y => (fun x => (x, y)) <$> xs) <$> ys)
  <-> a ∈ xs /\ b ∈ ys.
Proof.
  induction ys as [|y ys IH]; cbn.
  - split; [intros Hin; apply elem_of_nil in Hin; contradiction|].
    intros [_ Hin]. apply elem_of_nil in Hin. contradiction.
  - rewrite elem_of_app, IH, list_elem_of_fmap, elem_of_cons. split.
    + intros [(x & Heq & Hx) | [Ha Hb]].
      * injection Heq as -> ->. auto.
      * auto.
    + intros [Ha [-> | Hb]]; [left; exists a; auto | right; auto].
Qed.

Lemma NoDup_grid (xs : list A) (ys : list B) :
  NoDup xs -> NoDup ys ->
  NoDup (concat ((fun y => (fun x => (x, y)) <$> xs) <$> ys)).
Proof.
  intros Hxs Hys. induction Hys as [|y ys Hy Hys IH]; cbn; [constructor|].
  apply NoDup_app. split; [|split; [|exact IH]].
  - apply NoDup_fmap_2_strong; [|exact Hxs]. intros a a' _ _ Heq. congruence.
  - intros [a b] Hin Hin'. apply list_elem_of_fmap in Hin as (x & Heq & _).
    injection Heq as -> ->. apply elem_of_grid in Hin' as [_ Hb]. contradiction.
Qed.

End Grid.

Lemma pixels_spec (rect : Rectangle) (x y : Z) :
  (x, y) ∈ pixels rect <-> Point_In x y rect = true.
Proof.
  unfold pixels. rewrite elem_of_grid. unfold columns, rows.
  rewrite !elem_of_seqZ, Point_In_spec. lia.
Qed.

Lemma NoDup_pixels (rect : Rectangle) : NoDup (pixels rect).
Proof. apply NoDup_grid; apply NoDup_seqZ. Qed.


(** ** Loops *)

Section Loops.

Context {A S : Type} (body : A -> S -> outcome S).

(** A property kept by every iteration holds of the state the loop ends
    in, whether it returns, panics or blocks. *)
Lemma for_each_inv (P : S -> Prop) (xs : list A) :
  (forall a, a ∈ xs -> forall s, P s -> P (state_of (body a s))) ->
  forall s, P s -> P (state_of (for_each body xs s)).
Proof.
  induction xs as [|a xs IH]; intros Hbody s Hs; [exact Hs|].
  cbn [for_each].
  assert (Ha : P (state_of (body a s))) by (apply Hbody; [left | exact Hs]).
  destruct (body a s) as [s'|s'|s']; cbn [state_of] in Ha |- *.
  - apply IH; [|exact Ha]. intros a' Ha'. apply Hbody. right. exact Ha'.
  - exact Ha.
  - exact Ha.
Qed.

(** A loop whose iterations never panic does not panic. *)
Lemma for_each_returns (xs : list A) :
  (forall a, a ∈ xs -> forall s, panicked (body a s) = false) ->
  forall s, panicked (for_each body xs s) = false.
Proof.
  induction xs as [|a xs IH]; intros Hbody s; [reflexivity|].
  cbn [for_each]. pose proof (Hbody a ltac:(left) s) as Ha.
  destruct (body a s) as [s'|s'|s']; [|discriminate|reflexivity].
  apply IH. intros a' Ha'. apply Hbody. right. exact Ha'.
Qed.

(** A loop does not block when its iterations keep a property under
    which none of them blocks. *)
Lemma for_each_not_blocked (P : S -> Prop) (xs : list A) :
  (forall a, a ∈ xs -> forall s, P s ->
     blocked (body a s) = false /\ P (state_of (body a s))) ->
  forall s, P s -> blocked (for_each body xs s) = false.
Proof.
  induction xs as [|a xs IH]; intros Hbody s Hs; [reflexivity|].
  cbn [for_each]. destruct (Hbody a ltac:(left) s Hs) as (Hnb & Ha).
  destruct (body a s) as [s'|s'|s']; [|reflexivity|discriminate].
  apply IH; [|exact Ha]. intros a' Ha'. apply Hbody. right. exact Ha'.
Qed.

(** What a returning loop appends to a list kept in its state. *)
Lemma for_each_appends {B : Type} (f : S -> list B) (g : A -> list B)
    (xs : list A) :
  (forall a s, returned (body a s) = true ->
               f (state_of (body a s)) = f s ++ g a) ->
  forall s, returned (for_each body xs s) = true ->
            f (state_of (for_each body xs s)) = f s ++ concat (g <$> xs).
Proof.
  intros Hbody. induction xs as [|a xs IH]; intros s Hret.
  - cbn. rewrite app_nil_r. reflexivity.
  - cbn [for_each] in *. pose proof (Hbody a s) as Ha.
    destruct (body a s) as [s'|s'|s']; [|discriminate|discriminate].
    rewrite (IH s' Hret). cbn [state_of] in Ha. rewrite Ha by reflexivity.
    cbn. rewrite <- app_assoc. reflexivity.
Qed.


Lemma returned_spec (o : outcome S) :
  returned o = true <-> panicked o = false /\ blocked o = false.
Proof. destruct o; cbn; intuition discriminate. Qed.

End Loops.

(** ** The destination under [Set] *)

Section Destination.

Context `{Collaborators}.

Lemma Paletted_Set_rect (p : Paletted) (x y : Z) (c : RGBA) :
  palRect (Paletted_Set p x y c) = palRect p.
Proof. unfold Paletted_Set. destruct (Point_In x y (palRect p)); reflexivity. Qed.

Lemma Paletted_Set_palette (p : Paletted) (x y : Z) (c : RGBA) :
  palPalette (Paletted_Set p x y c) = palPalette p.
Proof. unfold Paletted_Set. destruct (Point_In x y (palRect p)); reflexivity. Qed.

(** [Set] changes no other point. *)
Lemma ColorIndexAt_set_other (p : Paletted) (x y x' y' : Z) (c : RGBA) :
  (x', y') <> (x, y) ->
  ColorIndexAt (Paletted_Set p x' y' c) x y = ColorIndexAt p x y.
Proof.
  intros Hne. unfold Paletted_Set.
  destruct (Point_In x' y' (palRect p)); [|reflexivity].
  unfold ColorIndexAt. cbn [palRect palPix].
  destruct (Point_In x y (palRect p)); [|reflexivity].
  destruct (Z.eqb_spec x x') as [->|Hx]; [|reflexivity].
  destruct (Z.eqb_spec y y') as [->|Hy]; [congruence|reflexivity].
Qed.

Lemma replay_snoc (d : Paletted) (log : list PixelStep) (st : PixelStep) :
  replay d (log ++ [st])
  = Paletted_Set (replay d log) (stX st) (stY st) (stColor st).
Proof. unfold replay. rewrite foldl_snoc. reflexivity. Qed.

(** Replaying writes made inside a rectangle leaves the bounds, the
    palette and every point outside the rectangle as they were. *)
Lemma replay_outside (rect : Rectangle) (d : Paletted) (log : list PixelStep) :
  (forall st, st ∈ log -> Point_In (stX st) (stY st) rect = true) ->
  palRect (replay d log) = palRect d
  /\ palPalette (replay d log) = palPalette d
  /\ forall x y, Point_In x y rect = false ->
       ColorIndexAt (replay d log) x y = ColorIndexAt d x y.
Proof.
  induction log as [|st log IH] using rev_ind; intros Hin.
  - cbn. auto.
  - rewrite replay_snoc.
    destruct IH as (Hrect & Hpal & Hpix).
    { intros st' Hst'. apply Hin, elem_of_app. left. exact Hst'. }
    rewrite Paletted_Set_rect, Paletted_Set_palette.
    split; [exact Hrect | split; [exact Hpal|]].
    intros x y Hout. rewrite ColorIndexAt_set_other; [apply Hpix, Hout|].
    intros Heq. injection Heq as Hx Hy. rewrite <- Hx, <- Hy in Hout.
    rewrite Hin in Hout; [discriminate|].
    apply elem_of_app. right. apply list_elem_of_singleton. reflexivity.
Qed.

End Destination.

(** ** One iteration of [Draw] *)

Section DrawPixel.

Context `{Collaborators}.

Variables (dit : Dither) (rect : Rectangle) (src : Z -> Z -> Color)
          (p : list Color) (shift ppf : Z).

(** The ways an iteration ends. *)
Lemma Draw_pixel_cases (y x : Z) (s : DrawState) :
  let o := Draw_pixel dit rect src p shift ppf y x s in
  (o = Panicked s /\ p = [])
  \/ (exists st,
        frame_due rect ppf x y = None
        /\ panicked o = true
        /\ dsLog (state_of o) = dsLog s ++ [st]
        /\ stX st = x /\ stY st = y /\ stFrame st = None
        /\ dsDst (state_of o) = Paletted_Set (dsDst s) x y (stColor st))
  \/ (exists st due,
        frame_due rect ppf x y = Some due
        /\ panicked o = false
        /\ dsLog (state_of o) = dsLog s ++ [st]
        /\ stX st = x /\ stY st = y /\ sent st = due
        /\ dsDst (state_of o) = Paletted_Set (dsDst s) x y (stColor st)
        /\ (blocked o = true <-> due = true /\ dsReceives s = Some 0%nat)
        /\ (dsReceives s = None -> dsReceives (state_of o) = None)).
Proof.
  cbn zeta. unfold Draw_pixel.
  destruct (findColor _ _ p) as [[[r e] dist]|] eqn:Hfind.
  - right. destruct (frame_due rect ppf x y) as [[|]|].
    + right. exists (mkPixelStep x y r
                       (Some (Paletted_Set (dsDst s) x y r))), true.
      destruct (dsReceives s) as [[|n]|]; cbn;
        repeat split; try reflexivity; try discriminate;
        intros [_ Heq]; discriminate.
    + right. exists (mkPixelStep x y r None), false. cbn.
      repeat split; try reflexivity; try discriminate; auto.
      intros [Heq _]. discriminate.
    + left. exists (mkPixelStep x y r None). cbn. repeat split; reflexivity.
  - left. split; [reflexivity|].
    destruct p as [|c p']; [reflexivity|].
    destruct (findColor_first_minimum16
                (PixelError_RGBA (PixelErrorAt (dsErr s) x y)) (src x y)
                (c :: p') ltac:(discriminate)) as (? & ? & ? & _ & _ & Hsome).
    congruence.
Qed.

End DrawPixel.

(** ** The scan of [Draw] *)

Section DrawLoops.

Context `{Collaborators}.

Variables (dit : Dither) (rect : Rectangle) (src : Z -> Z -> Color)
          (p : list Color) (shift ppf : Z).

Lemma columns_rows_in (x y : Z) :
  x ∈ columns rect -> y ∈ rows rect -> Point_In x y rect = true.
Proof.
  unfold columns, rows. rewrite !elem_of_seqZ. intros Hx Hy.
  apply Point_In_spec. lia.
Qed.

Lemma Draw_pixel_log_ok (d : Paletted) (y x : Z) (s : DrawState) :
  x ∈ columns rect -> y ∈ rows rect ->
  log_ok rect ppf d s ->
  log_ok rect ppf d (state_of (Draw_pixel dit rect src p shift ppf y x s)).
Proof.
  intros Hx Hy (Hdst & Hlog).
  pose proof (columns_rows_in x y Hx Hy) as Hin.
  destruct (Draw_pixel_cases dit rect src p shift ppf y x s)
    as [[-> _] | [(st & Hdue & _ & Hl & HX & HY & Hfr & Hd)
                 | (st & due & Hdue & _ & Hl & HX & HY & Hfr & Hd & _)]].
  - split; assumption.
  - split.
    + rewrite Hl, replay_snoc, HX, HY, <- Hdst. exact Hd.
    + intros st' Hst'. rewrite Hl in Hst'.
      apply elem_of_app in Hst' as [Hold|Hnew]; [apply Hlog, Hold|].
      apply list_elem_of_singleton in Hnew as ->. rewrite HX, HY.
      split; [exact Hin|]. unfold sent. rewrite Hfr, Hdue.
      split; discriminate.
  - split.
    + rewrite Hl, replay_snoc, HX, HY, <- Hdst. exact Hd.
    + intros st' Hst'. rewrite Hl in Hst'.
      apply elem_of_app in Hst' as [Hold|Hnew]; [apply Hlog, Hold|].
      apply list_elem_of_singleton in Hnew as ->. rewrite HX, HY.
      split; [exact Hin|]. rewrite Hfr, Hdue.
      split; [intros ->; reflexivity | intros Heq; injection Heq; auto].
Qed.

Lemma Draw_loops_log_ok (d : Paletted) (s : DrawState) :
  log_ok rect ppf d s ->
  log_ok rect ppf d (state_of (Draw_loops dit rect src p shift ppf s)).
Proof.
  intros Hs. unfold Draw_loops.
  apply (for_each_inv _ (log_ok rect ppf d)); [|exact Hs].
  intros y Hy s1 Hs1.
  apply (for_each_inv _ (log_ok rect ppf d)); [|exact Hs1].
  intros x Hx s2 Hs2. apply Draw_pixel_log_ok; assumption.
Qed.

(** With a palette and a non-zero stride no iteration panics. *)
Lemma Draw_pixel_returns (y x : Z) (s : DrawState) :
  p <> [] -> ppf <> 0 ->
  panicked (Draw_pixel dit rect src p shift ppf y x s) = false.
Proof.
  intros Hp Hppf.
  destruct (Draw_pixel_cases dit rect src p shift ppf y x s)
    as [[_ ->] | [(st & Hdue & _) | (st & due & _ & Hret & _)]].
  - congruence.
  - unfold frame_due in Hdue.
    destruct (negb (y =? 0) && negb (x =? 0)); [|discriminate].
    destruct (Z.eqb_spec ppf 0); [contradiction|discriminate].
  - exact Hret.
Qed.

Lemma Draw_pixel_points (y x : Z) (s : DrawState) :
  returned (Draw_pixel dit rect src p shift ppf y x s) = true ->
  points (dsLog (state_of (Draw_pixel dit rect src p shift ppf y x s)))
  = points (dsLog s) ++ [(x, y)].
Proof.
  intros Hret. apply returned_spec in Hret as (Hnp & _).
  destruct (Draw_pixel_cases dit rect src p shift ppf y x s)
    as [[Ho _] | [(st & _ & Hpan & _) | (st & due & _ & _ & Hl & HX & HY & _)]].
  - rewrite Ho in Hnp. discriminate.
  - congruence.
  - rewrite Hl. unfold points. rewrite fmap_app. cbn. rewrite HX, HY.
    reflexivity.
Qed.

(** While the receivers take every frame no iteration blocks. *)
Lemma Draw_pixel_not_blocked (y x : Z) (s : DrawState) :
  dsReceives s = None ->
  blocked (Draw_pixel dit rect src p shift ppf y x s) = false
  /\ dsReceives (state_of (Draw_pixel dit rect src p shift ppf y x s)) = None.
Proof.
  intros Hrecv. unfold Draw_pixel.
  destruct (findColor _ _ p) as [[[r e] dd]|]; [|split; [reflexivity|exact Hrecv]].
  destruct (frame_due rect ppf x y) as [[|]|]; rewrite ?Hrecv; cbn; auto.
Qed.

Lemma Draw_loops_not_blocked (s : DrawState) :
  dsReceives s = None ->
  blocked (Draw_loops dit rect src p shift ppf s) = false.
Proof.
  intros Hs. unfold Draw_loops.
  apply (for_each_not_blocked _ (fun s => dsReceives s = None)); [|exact Hs].
  intros y _ s1 Hs1. split.
  - apply (for_each_not_blocked _ (fun s => dsReceives s = None)); [|exact Hs1].
    intros x _ s2 Hs2. apply Draw_pixel_not_blocked, Hs2.
  - apply (for_each_inv _ (fun s => dsReceives s = None)); [|exact Hs1].
    intros x _ s2 Hs2. apply Draw_pixel_not_blocked, Hs2.
Qed.

Lemma Draw_loops_returns (s : DrawState) :
  p <> [] -> ppf <> 0 ->
  panicked (Draw_loops dit rect src p shift ppf s) = false.
Proof.
  intros Hp Hppf. unfold Draw_loops.
  apply for_each_returns. intros y _ s'.
  apply for_each_returns. intros x _ s''.
  apply Draw_pixel_returns; assumption.
Qed.

(** A scan that returns has visited the pixels of the rectangle, row by
    row. *)
Lemma Draw_loops_points (s : DrawState) :
  returned (Draw_loops dit rect src p shift ppf s) = true ->
  points (dsLog (state_of (Draw_loops dit rect src p shift ppf s)))
  = points (dsLog s) ++ pixels rect.
Proof.
  unfold Draw_loops, pixels.
  apply (for_each_appends _ (fun s => points (dsLog s))
           (fun y => (fun x => (x, y)) <$> columns rect)).
  intros y s' Hrow.
  rewrite (for_each_appends _ (fun s => points (dsLog s))
             (fun x => [(x, y)]) (columns rect)); [|intros x s''; apply Draw_pixel_points|exact Hrow].
  f_equal. clear Hrow. induction (columns rect) as [|x xs IH]; [reflexivity|].
  cbn. f_equal. exact IH.
Qed.

(** Where the frame test never holds no iteration blocks. *)
Lemma Draw_loops_no_frame_not_blocked (s : DrawState) :
  (forall x y, x ∈ columns rect -> y ∈ rows rect ->
               frame_due rect ppf x y <> Some true) ->
  blocked (Draw_loops dit rect src p shift ppf s) = false.
Proof.
  intros Hnone. unfold Draw_loops.
  apply (for_each_not_blocked _ (fun _ => True)); [|exact I].
  intros y Hy s1 _. split; [|exact I].
  apply (for_each_not_blocked _ (fun _ => True)); [|exact I].
  intros x Hx s2 _. split; [|exact I].
  destruct (Draw_pixel_cases dit rect src p shift ppf y x s2)
    as [[-> _] | [(st & _ & Hpan & _)
                 | (st & due & Hdue & _ & _ & _ & _ & _ & _ & Hblk & _)]].
  - reflexivity.
  - destruct (Draw_pixel _ _ _ _ _ _ _ _ _); [reflexivity|reflexivity|discriminate].
  - destruct (blocked _); [|reflexivity].
    destruct Hblk as [Hblk _]. destruct (Hblk eq_refl) as [-> _].
    exfalso. apply (Hnone x y Hx Hy). exact Hdue.
Qed.



End DrawLoops.

(** ** [Draw] as a whole *)

Section DrawFacts.

Context `{Collaborators}.

Variables (dit : Dither) (d : Paletted) (rect : Rectangle)
          (src : Z -> Z -> Color).

(** On a paletted destination: the destination returned is the original
    one after the logged writes, all of them inside the rectangle, and
    frames were sent exactly where the test of [Draw] holds. *)
Lemma Draw_paletted_log :
  drDst (Draw dit (inl d) rect src)
  = inl (replay d (drLog (Draw dit (inl d) rect src)))
  /\ forall st, st ∈ drLog (Draw dit (inl d) rect src) ->
       Point_In (stX st) (stY st) rect = true
       /\ (sent st = true <->
           frame_due rect (pixPerFrame rect (nbFrames dit)) (stX st) (stY st)
           = Some true).
Proof.
  unfold Draw. destruct (nbFrames dit =? 0).
  - cbn. split; [reflexivity|]. intros st Hst. apply elem_of_nil in Hst.
    contradiction.
  - cbn [drDst drLog].
    destruct (Draw_loops_log_ok dit rect src (palPalette d)
                (findShift (Matrix dit)) (pixPerFrame rect (nbFrames dit)) d
                (mkDrawState d (NewErrorImage rect) [] receivers))
      as (Hdst & Hlog).
    { split; [reflexivity|]. intros st Hst. apply elem_of_nil in Hst.
      contradiction. }
    split; [f_equal; exact Hdst | exact Hlog].
Qed.

(** A call that neither panics nor blocks has visited every pixel of the
    rectangle in order. *)
Lemma Draw_returned_points :
  drPanicked (Draw dit (inl d) rect src) = false ->
  drBlocked (Draw dit (inl d) rect src) = false ->
  points (drLog (Draw dit (inl d) rect src)) = pixels rect.
Proof.
  unfold Draw. destruct (nbFrames dit =? 0); [discriminate|].
  cbn [drPanicked drBlocked drLog]. intros Hnp Hnb.
  rewrite Draw_loops_points by (apply returned_spec; auto). reflexivity.
Qed.

(** With a palette, a frame count and a stride other than zero the call
    does not panic; it does not block when every frame is received. *)
Lemma Draw_paletted_returns :
  palPalette d <> [] -> nbFrames dit <> 0 ->
  pixPerFrame rect (nbFrames dit) <> 0 ->
  drPanicked (Draw dit (inl d) rect src) = false
  /\ (receivers = None -> drBlocked (Draw dit (inl d) rect src) = false).
Proof.
  intros Hp Hn Hppf. unfold Draw.
  destruct (Z.eqb_spec (nbFrames dit) 0) as [?|_]; [contradiction|].
  cbn [drPanicked drBlocked]. split.
  - apply Draw_loops_returns; assumption.
  - intros Hrecv. apply Draw_loops_not_blocked. exact Hrecv.
Qed.

(** Where the frame test holds at no pixel of the rectangle the call
    does not block. *)
Lemma Draw_no_frame_not_blocked :
  (forall x y, Point_In x y rect = true ->
     frame_due rect (pixPerFrame rect (nbFrames dit)) x y <> Some true) ->
  drBlocked (Draw dit (inl d) rect src) = false.
Proof.
  intros Hnone. unfold Draw. destruct (nbFrames dit =? 0); [reflexivity|].
  cbn [drBlocked]. apply Draw_loops_no_frame_not_blocked.
  intros x y Hx Hy. apply Hnone, columns_rows_in; assumption.
Qed.


End DrawFacts.

Lemma countFrames_none (log : list PixelStep) :
  (forall st, st ∈ log -> sent st = false) -> countFrames log = 0%nat.
Proof.
  unfold countFrames. induction log as [|st log IH]; intros Hnone; [reflexivity|].
  rewrite filter_cons. destruct (decide (sent st = true)) as [Hs|_].
  - rewrite Hnone in Hs by left. discriminate.
  - apply IH. intros st' Hst'. apply Hnone. right. exact Hst'.
Qed.

(** C5: for every rectangle, source image and configuration, when the
    destination is not a palette-indexed surface [Draw] is a no-op: the
    destination is returned as it was, no error buffer is allocated,
    nothing is sent on the animation channel, and the call returns
    (it neither panics nor blocks). *)
Theorem Draw_other_destination_noop `{Collaborators} (dit : Dither)
    (o : OtherImage) (rect : Rectangle) (src : Z -> Z -> Color) :
  Draw dit (inr o) rect src = mkDrawResult (inr o) None [] false false.
Proof. reflexivity. Qed.

(** C10: for every paletted destination, rectangle and source image,
    [Draw] calls [Set] only at points of the rectangle, the destination
    it leaves is the original one after those writes, and so its bounds,
    its palette and every pixel outside the rectangle are unchanged. *)
Theorem Draw_writes_inside_rectangle `{Collaborators} (dit : Dither)
    (d : Paletted) (rect : Rectangle) (src : Z -> Z -> Color) :
  exists d' : Paletted,
    drDst (Draw dit (inl d) rect src) = inl d'
    /\ d' = replay d (drLog (Draw dit (inl d) rect src))
    /\ (forall st, st ∈ drLog (Draw dit (inl d) rect src) ->
          ptX (rMin rect) <= stX st < ptX (rMax rect)
          /\ ptY (rMin rect) <= stY st < ptY (rMax rect))
    /\ palRect d' = palRect d
    /\ palPalette d' = palPalette d
    /\ (forall x y, Point_In x y rect = false ->
          ColorIndexAt d' x y = ColorIndexAt d x y).
Proof.
  destruct (Draw_paletted_log dit d rect src) as (Hdst & Hlog).
  exists (replay d (drLog (Draw dit (inl d) rect src))).
  assert (Hin : forall st, st ∈ drLog (Draw dit (inl d) rect src) ->
                  Point_In (stX st) (stY st) rect = true)
    by (intros st Hst; apply Hlog, Hst).
  destruct (replay_outside rect d _ Hin) as (Hrect & Hpal & Hpix).
  split; [exact Hdst|]. split; [reflexivity|]. split.
  - intros st Hst. apply Point_In_spec, Hin, Hst.
  - split; [exact Hrect|]. split; [exact Hpal | exact Hpix].
Qed.

(** ** Frame emission *)

Section Frames.


Lemma frame_due_stride_zero (rect : Rectangle) (x y : Z) :
  frame_due rect 0 x y <> Some true.
Proof.
  unfold frame_due.
  destruct (negb (y =? 0) && negb (x =? 0)); cbn; discriminate.
Qed.

(** On the 8x8 image at the origin every multiple of 16 lies in the
    first column. *)
Lemma frame_due_8x8 (x y : Z) :
  0 <= x < 8 -> 0 <= y < 8 ->
  frame_due (Rect 0 0 8 8) 16 x y <> Some true.
Proof.
  intros Hx Hy. unfold frame_due.
  change (Dy (Rect 0 0 8 8)) with (int 8). rewrite (int_small 8) by lia.
  rewrite (int_small (y * 8)) by lia. rewrite (int_small (y * 8 + x)) by lia.
  destruct (Z.eqb_spec y 0) as [?|Hy0], (Z.eqb_spec x 0) as [?|Hx0]; cbn;
    try discriminate.
  destruct (Z.eqb_spec (Z.rem (y * 8 + x) 16) 0) as [Hrem|_]; [|discriminate].
  exfalso. revert Hrem. Z.to_euclidean_division_equations. lia.
Qed.

End Frames.

(** C6, as stated, fails: a destination that is not palette-indexed is
    not reported; the call returns normally, having done nothing. *)
Lemma Draw_other_destination_not_rejected :
  drPanicked (@Draw Sample.collaborators (NewDither FloydSteinberg) (inr tt)
                (Rect 0 0 8 8) Sample.gray) <> true.
Proof. vm_compute. discriminate. Qed.

(** C6 (amended): an empty palette passed to the resolver makes the call
    fail, with the run-time panic of indexing the empty palette; a
    destination that is not palette-indexed is not reported, and [Draw]
    returns normally without having done anything. *)
Theorem empty_palette_panics_other_destination_ignored `{Collaborators}
    (err pix : Color) (dit : Dither) (o : OtherImage) (rect : Rectangle)
    (src : Z -> Z -> Color) :
  findColor err pix [] = None
  /\ drPanicked (Draw dit (inr o) rect src) = false
  /\ drBlocked (Draw dit (inr o) rect src) = false
  /\ drDst (Draw dit (inr o) rect src) = inr o
  /\ drLog (Draw dit (inr o) rect src) = [].
Proof. repeat split. Qed.




(** C8 is not met by the code: the test of [Draw] is made on the absolute
    coordinates.  An engine built by [NewDither] drawing the rectangle
    (1,1)-(3,3) of a 4x4 image has stride 4 and sends a frame at pixel
    (2, 1), where 1 * 2 + 2 = 4. *)
Theorem NewDither_sends_on_offset_rectangle :
  points
    (drLog (@Draw Sample.collaborators (NewDither FloydSteinberg)
              (inl (Sample.blank (Rect 0 0 4 4))) (Rect 1 1 3 3) Sample.gray))
  = [(1, 1); (2, 1); (1, 2); (2, 2)]
  /\ sent <$>
       drLog (@Draw Sample.collaborators (NewDither FloydSteinberg)
                (inl (Sample.blank (Rect 0 0 4 4))) (Rect 1 1 3 3) Sample.gray)
     = [false; true; false; false].
Proof. split; vm_compute; reflexivity. Qed.

(** On the same input with nobody receiving, the call blocks in that
    send: the scan stops at pixel (2, 1). *)
Example NewDither_blocks_on_offset_rectangle :
  points
    (drLog (@Draw Sample.unattended (NewDither FloydSteinberg)
              (inl (Sample.blank (Rect 0 0 4 4))) (Rect 1 1 3 3) Sample.gray))
  = [(1, 1); (2, 1)]
  /\ drBlocked
       (@Draw Sample.unattended (NewDither FloydSteinberg)
          (inl (Sample.blank (Rect 0 0 4 4))) (Rect 1 1 3 3) Sample.gray)
     = true.
Proof. split; vm_compute; reflexivity. Qed.

(** C9, as stated, fails: on the 8x8 image at the origin with a frame
    count of 4 no frame is sent, not 3. *)
Lemma Draw_8x8_not_three_frames :
  countFrames
    (drLog (@Draw Sample.collaborators (NewDitherAnimation FloydSteinberg 4)
              (inl (Sample.blank (Rect 0 0 8 8))) (Rect 0 0 8 8) Sample.gray))
  <> 3%nat.
Proof. vm_compute. discriminate. Qed.

(** C9 (amended): with frameCount = 4 on the 8x8 image at the origin the
    stride is 16, the call returns (it neither panics nor blocks, with
    or without a receiver) after visiting the 64 pixels, a frame
    is sent exactly at the pixels where x and y are both other than 0
    and (y * 8 + x) mod 16 = 0, and no pixel is such: no intermediate
    frame is sent. *)
Theorem Draw_8x8_four_frames `{Collaborators} (dit : Dither) (d : Paletted)
    (src : Z -> Z -> Color) :
  nbFrames dit = 4 -> palPalette d <> [] ->
  pixPerFrame (Rect 0 0 8 8) (nbFrames dit) = 16
  /\ drPanicked (Draw dit (inl d) (Rect 0 0 8 8) src) = false
  /\ points (drLog (Draw dit (inl d) (Rect 0 0 8 8) src)) = pixels (Rect 0 0 8 8)
  /\ (forall st, st ∈ drLog (Draw dit (inl d) (Rect 0 0 8 8) src) ->
        (sent st = true <->
         stX st <> 0 /\ stY st <> 0 /\ Z.rem (stY st * 8 + stX st) 16 = 0))
  /\ countFrames (drLog (Draw dit (inl d) (Rect 0 0 8 8) src)) = 0%nat
  /\ drBlocked (Draw dit (inl d) (Rect 0 0 8 8) src) = false.
Proof.
  intros Hn Hp.
  assert (Hppf : pixPerFrame (Rect 0 0 8 8) (nbFrames dit) = 16)
    by (rewrite Hn; reflexivity).
  destruct (Draw_paletted_log dit d (Rect 0 0 8 8) src) as (_ & Hlog).
  destruct (Draw_paletted_returns dit d (Rect 0 0 8 8) src Hp) as (Hret & _).
  { rewrite Hn. discriminate. }
  { rewrite Hppf. discriminate. }
  assert (Hfree : drBlocked (Draw dit (inl d) (Rect 0 0 8 8) src) = false).
  { apply Draw_no_frame_not_blocked. intros x y Hin.
    apply Point_In_spec in Hin. cbn in Hin. rewrite Hppf.
    apply frame_due_8x8; lia. }
  pose proof (Draw_returned_points dit d (Rect 0 0 8 8) src Hret Hfree) as Hpts.
  assert (Hnone : forall st,
            st ∈ drLog (Draw dit (inl d) (Rect 0 0 8 8) src) ->
            sent st = false
            /\ ~ (stX st <> 0 /\ stY st <> 0
                  /\ Z.rem (stY st * 8 + stX st) 16 = 0)).
  { intros st Hst. destruct (Hlog st Hst) as (Hin & Hsent).
    apply Point_In_spec in Hin. cbn in Hin. rewrite Hppf in Hsent.
    split.
    - destruct (sent st); [|reflexivity]. exfalso.
      apply (frame_due_8x8 (stX st) (stY st)); [lia | lia |].
      apply Hsent. reflexivity.
    - intros (Hx & Hy & Hrem). revert Hrem.
      Z.to_euclidean_division_equations. lia. }
  split; [exact Hppf|]. split; [exact Hret|]. split; [exact Hpts|]. split.
  - intros st Hst. destruct (Hnone st Hst) as (-> & Hno).
    split; [discriminate | intros Hyes; contradiction].
  - split; [|exact Hfree].
    apply countFrames_none. intros st Hst. apply Hnone, Hst.
Qed.

Lemma Draw_8x8_four_frames_witness :
  (4 = 4 /\ [Black; White] <> [])
  /\ countFrames
       (drLog (@Draw Sample.collaborators (NewDitherAnimation FloydSteinberg 4)
                 (inl (Sample.blank (Rect 0 0 8 8))) (Rect 0 0 8 8) Sample.gray))
     = 0%nat.
Proof.
  split; [split; [reflexivity | discriminate]|].
  destruct (@Draw_8x8_four_frames Sample.collaborators
              (NewDitherAnimation FloydSteinberg 4)
              (Sample.blank (Rect 0 0 8 8)) Sample.gray)
    as (_ & _ & _ & _ & Hcount & _);
    [reflexivity | discriminate | exact Hcount].
Defined.

(** * Further properties of the resolver *)

(** X1: [abs] returns the absolute value of every [int16], the most
    negative one included: there the negation wraps back to -32768 and
    the conversion to [uint16] yields 32768. *)
Theorem abs_int16 (z : Z) : abs (i16 z) = Z.abs (i16 z).
Proof.
  pose proof (i16_range z) as Hr. unfold abs.
  destruct (Z.ltb_spec (i16 z) 0) as [Hneg|Hpos].
  - destruct (Z.eq_dec (i16 z) (-32768)) as [->|Hne]; [reflexivity|].
    rewrite (i16_small (- i16 z)) by lia. rewrite u16_small by lia. lia.
  - rewrite u16_small by lia. lia.
Qed.

(** X2: [findColor] panics exactly on the empty palette; on every other
    palette it returns. *)
Theorem findColor_panics_iff_empty (err pix : Color) (pal : list Color) :
  findColor err pix pal = None <-> pal = [].
Proof.
  split.
  - intros Hnone. destruct pal as [|c pal]; [reflexivity|].
    destruct (findColor_first_minimum16 err pix (c :: pal) ltac:(discriminate))
      as (? & ? & ? & _ & _ & Hsome). congruence.
  - intros ->. reflexivity.
Qed.

(** X3: on every non-empty palette, whatever the error, [findColor]
    returns an opaque color made of the low bytes of a palette entry, the
    first one, in palette order, to minimise the Manhattan distance
    reduced modulo 2^16, and it returns that reduced distance. *)
Theorem findColor_first_minimum_mod (err pix : Color) (pal : list Color) :
  pal <> [] ->
  exists (i : nat) (col : Color) (e : PixelError) (dist : Z),
    findColor err pix pal = Some (entry_color col, e, dist)
    /\ pal !! i = Some col
    /\ RGBA_wf (entry_color col) /\ rgbaA (entry_color col) = 255
    /\ dist = manhattan (working (colR err) (colR pix))
                        (working (colG err) (colG pix))
                        (working (colB err) (colB pix)) col mod 65536
    /\ (forall j c, pal !! j = Some c ->
          dist <= manhattan (working (colR err) (colR pix))
                            (working (colG err) (colG pix))
                            (working (colB err) (colB pix)) c mod 65536)
    /\ (forall j c, (j < i)%nat -> pal !! j = Some c ->
          dist < manhattan (working (colR err) (colR pix))
                           (working (colG err) (colG pix))
                           (working (colB err) (colB pix)) c mod 65536).
Proof.
  intros Hne.
  destruct (findColor_first_minimum16 err pix pal Hne)
    as (i & col & e & Hcol & (Hat & Hmin & Hfirst) & Hfind).
  exists i, col, e, (distance (working (colR err) (colR pix))
                              (working (colG err) (colG pix))
                              (working (colB err) (colB pix)) col).
  split; [exact Hfind|]. split; [exact Hcol|].
  split.
  { unfold RGBA_wf, entry_color. cbn.
    pose proof (u8_range (colR col)). pose proof (u8_range (colG col)).
    pose proof (u8_range (colB col)). lia. }
  split; [reflexivity|].
  split; [exact (distance_manhattan err pix col)|].
  split.
  - intros j c Hj. pose proof (distance_manhattan err pix c) as Hd.
    unfold u16 in Hd. rewrite <- Hd.
    apply (Hmin j). rewrite list_lookup_fmap, Hj. reflexivity.
  - intros j c Hlt Hj. pose proof (distance_manhattan err pix c) as Hd.
    unfold u16 in Hd. rewrite <- Hd.
    apply (Hfirst j); [exact Hlt|]. rewrite list_lookup_fmap, Hj. reflexivity.
Qed.

Lemma findColor_first_minimum_mod_witness :
  [Black; White] <> []
  /\ exists (i : nat) (col : Color) (e : PixelError) (dist : Z),
       findColor (mkColor 32768 32768 44203 0) Black [Black; White]
       = Some (entry_color col, e, dist).
Proof.
  split; [discriminate|].
  destruct (findColor_first_minimum_mod (mkColor 32768 32768 44203 0) Black
              [Black; White]) as (i & col & e & dist & Hfind & _);
    [discriminate|].
  exists i, col, e, dist. exact Hfind.
Defined.

(** X4: the residual error [findColor] returns is, on each channel, the
    integer (low byte of the source channel) + (three quarters of the
    [int16] error, truncated toward zero) - (channel of the color
    returned); it lies between -24831 and 24830, so the [int16]
    subtraction never wraps, and the fourth field is 65535. *)
Theorem findColor_residual (err pix : Color) (pal : list Color)
    (c : RGBA) (e : PixelError) (dist : Z) :
  findColor err pix pal = Some (c, e, dist) ->
  e = mkPixelError
        (F32 (inject_Z (u8 (colR pix) + damped (colR err) - rgbaR c)))
        (F32 (inject_Z (u8 (colG pix) + damped (colG err) - rgbaG c)))
        (F32 (inject_Z (u8 (colB pix) + damped (colB err) - rgbaB c)))
        (F32 (inject_Z 65535))
  /\ -24831 <= u8 (colR pix) + damped (colR err) - rgbaR c <= 24830
  /\ -24831 <= u8 (colG pix) + damped (colG err) - rgbaG c <= 24830
  /\ -24831 <= u8 (colB pix) + damped (colB err) - rgbaB c <= 24830.
Proof.
  rewrite findColor_unfold.
  destruct (pal !! _) as [col|]; [|discriminate].
  intros Heq. injection Heq as <- <- _.
  unfold damped. rewrite <- !lowpass_eq. cbn [entry_color rgbaR rgbaG rgbaB].
  split; [reflexivity|].
  pose proof (u8_range (colR pix)). pose proof (u8_range (colG pix)).
  pose proof (u8_range (colB pix)). pose proof (u8_range (colR col)).
  pose proof (u8_range (colG col)). pose proof (u8_range (colB col)).
  pose proof (lowpass_range (colR err)). pose proof (lowpass_range (colG err)).
  pose proof (lowpass_range (colB err)). lia.
Qed.

Lemma findColor_residual_witness :
  findColor (mkColor 10 65526 0 0) (mkColor 200 100 50 65535) [Black; White]
  = Some (mkRGBA 0 0 0 255,
          mkPixelError (F32 207) (F32 93) (F32 50) (F32 65535), 350)
  /\ -24831 <= u8 200 + damped 10 - 0 <= 24830.
Proof.
  assert (Hrun : findColor (mkColor 10 65526 0 0) (mkColor 200 100 50 65535)
                   [Black; White]
                 = Some (mkRGBA 0 0 0 255,
                         mkPixelError (F32 207) (F32 93) (F32 50) (F32 65535),
                         350)) by (vm_compute; reflexivity).
  split; [exact Hrun|].
  destruct (findColor_residual _ _ _ _ _ _ Hrun) as (_ & HR & _). exact HR.
Defined.

(** X5: [findColor] reads the accumulated error through the low 16 bits
    of its channels and the source pixel through the low byte of its
    channels; the alpha values and the higher bits play no part. *)
Theorem findColor_low_bits (err err' pix pix' : Color) (pal : list Color) :
  i16 (colR err) = i16 (colR err') -> i16 (colG err) = i16 (colG err') ->
  i16 (colB err) = i16 (colB err') ->
  u8 (colR pix) = u8 (colR pix') -> u8 (colG pix) = u8 (colG pix') ->
  u8 (colB pix) = u8 (colB pix') ->
  findColor err pix pal = findColor err' pix' pal.
Proof.
  intros HeR HeG HeB HpR HpG HpB.
  unfold findColor, working, lowpass, chan8.
  rewrite HeR, HeG, HeB, HpR, HpG, HpB. reflexivity.
Qed.

Lemma findColor_low_bits_witness :
  findColor (mkColor 65546 0 0 7) (mkColor 4660 4660 4660 65535) [Black; White]
  = findColor (mkColor 10 0 0 0) (mkColor 52 52 52 0) [Black; White].
Proof. apply findColor_low_bits; reflexivity. Defined.

(** X6: the low-pass filter is three quarters of the [int16] error
    truncated toward zero, computed without rounding by the [float32]
    product; it keeps the sign of the error and never exceeds it in
    magnitude. *)
Theorem lowpass_truncates (e : Z) :
  lowpass e = Z.quot (i16 e * 3) 4
  /\ binary32_exact (inject_Z (i16 e) * (3 # 4))%Q
  /\ Z.abs (lowpass e) <= Z.abs (i16 e)
  /\ 0 <= lowpass e * i16 e
  /\ Z.abs (4 * lowpass e - 3 * i16 e) < 4.
Proof.
  split; [apply lowpass_eq|]. split; [apply lowpass_product_exact|].
  rewrite lowpass_eq. pose proof (i16_range e).
  Z.to_euclidean_division_equations. nia.
Qed.

(** X7: when every channel of the error is -1, 0 or 1 (the filter
    removes it) and some palette entry has the low bytes of the source
    pixel, [findColor] returns that color with distance 0 and a zero
    residual. *)
Theorem findColor_exact_match (err pix col : Color) (pal : list Color) :
  col ∈ pal ->
  Z.abs (i16 (colR err)) <= 1 -> Z.abs (i16 (colG err)) <= 1 ->
  Z.abs (i16 (colB err)) <= 1 ->
  u8 (colR col) = u8 (colR pix) -> u8 (colG col) = u8 (colG pix) ->
  u8 (colB col) = u8 (colB pix) ->
  findColor err pix pal
  = Some (entry_color col,
          mkPixelError (F32 0) (F32 0) (F32 0) (F32 (inject_Z 65535)), 0).
Proof.
  intros Hin HeR HeG HeB HcR HcG HcB.
  assert (Hlow : forall e, Z.abs (i16 e) <= 1 -> lowpass e = 0).
  { intros e He. rewrite lowpass_eq. Z.to_euclidean_division_equations. lia. }
  assert (Hne : pal <> []) by (intros ->; apply elem_of_nil in Hin; exact Hin).
  pose proof (findColor_scan_first_minimum
                (working (colR err) (colR pix)) (working (colG err) (colG pix))
                (working (colB err) (colB pix)) pal Hne) as (Hat & Hmin & _).
  rewrite findColor_unfold.
  destruct (findColor_scan _ _ _ pal 0 0 65535) as [index m]. cbn [fst snd] in *.
  rewrite list_lookup_fmap in Hat.
  destruct (pal !! index) as [col'|]; [|discriminate].
  cbn in Hat. injection Hat as Hm.
  apply list_elem_of_lookup in Hin as [j Hj].
  assert (Hcol : distance (working (colR err) (colR pix))
                   (working (colG err) (colG pix))
                   (working (colB err) (colB pix)) col = 0).
  { rewrite distance_manhattan. unfold manhattan.
    rewrite !working_eq, !Hlow by assumption. rewrite HcR, HcG, HcB.
    rewrite !Z.add_0_r, !Z.sub_diag. reflexivity. }
  assert (Hle : m <= 0).
  { rewrite <- Hcol. apply (Hmin j). rewrite list_lookup_fmap, Hj. reflexivity. }
  pose proof (distance_range (working (colR err) (colR pix))
                (working (colG err) (colG pix))
                (working (colB err) (colB pix)) col') as Hrange.
  assert (Hm0 : m = 0) by lia. subst m. rewrite Hm0.
  rewrite distance_manhattan in Hm0. unfold manhattan, u16 in Hm0.
  rewrite !working_eq, !Hlow in Hm0 by assumption.
  rewrite !Hlow by assumption.
  pose proof (u8_range (colR pix)). pose proof (u8_range (colG pix)).
  pose proof (u8_range (colB pix)). pose proof (u8_range (colR col')).
  pose proof (u8_range (colG col')). pose proof (u8_range (colB col')).
  rewrite Z.mod_small in Hm0 by lia.
  assert (HR : u8 (colR col') = u8 (colR pix)) by lia.
  assert (HG : u8 (colG col') = u8 (colG pix)) by lia.
  assert (HB : u8 (colB col') = u8 (colB pix)) by lia.
  unfold entry_color. rewrite HR, HG, HB, HcR, HcG, HcB.
  rewrite !Z.add_0_r, !Z.sub_diag. reflexivity.
Qed.

Lemma findColor_exact_match_witness :
  findColor (mkColor 1 65535 0 0) White [Black; White]
  = Some (mkRGBA 255 255 255 255,
          mkPixelError (F32 0) (F32 0) (F32 0) (F32 (inject_Z 65535)), 0).
Proof.
  apply (findColor_exact_match (mkColor 1 65535 0 0) White White [Black; White]).
  - right. left.
  - vm_compute. discriminate.
  - vm_compute. discriminate.
  - vm_compute. discriminate.
  - reflexivity.
  - reflexivity.
  - reflexivity.
Defined.

(** * Further properties of [Draw] *)

Section Loops2.

Context {A S : Type} (body : A -> S -> outcome S).

(** A loop panics when one of its iterations panics from every state and
    none blocks. *)
Lemma for_each_panics (xs : list A) (a : A) :
  a ∈ xs -> (forall s, panicked (body a s) = true) ->
  (forall x s, blocked (body x s) = false) ->
  forall s, panicked (for_each body xs s) = true.
Proof.
  intros Hin Hpanic Hfree. induction xs as [|x xs IH]; intros s.
  - apply elem_of_nil in Hin. contradiction.
  - cbn [for_each]. pose proof (Hfree x s) as Hx.
    apply elem_of_cons in Hin as [<-|Hin].
    + pose proof (Hpanic s) as Hs.
      destruct (body a s); [discriminate|reflexivity|discriminate].
    + destruct (body x s) as [s'|s'|s'];
        [apply IH, Hin | reflexivity | discriminate].
Qed.

(** A loop whose iterations do nothing does nothing. *)
Lemma for_each_skip (xs : list A) :
  (forall a s, body a s = Returned s) ->
  forall s, for_each body xs s = Returned s.
Proof.
  intros Hskip s. induction xs as [|x xs IH]; [reflexivity|].
  cbn [for_each]. rewrite Hskip. exact IH.
Qed.

End Loops2.

(** X8: with a frame count of 0 on a paletted destination, [Draw] panics
    on the integer division before the scan: nothing is written and
    nothing is sent, whatever the rectangle. *)
Theorem Draw_zero_frame_count_panics `{Collaborators} (dit : Dither)
    (d : Paletted) (rect : Rectangle) (src : Z -> Z -> Color) :
  nbFrames dit = 0 ->
  drPanicked (Draw dit (inl d) rect src) = true
  /\ drLog (Draw dit (inl d) rect src) = []
  /\ drDst (Draw dit (inl d) rect src) = inl d.
Proof. intros Hn. unfold Draw. rewrite Hn. cbn. auto. Qed.

Lemma Draw_zero_frame_count_panics_witness :
  drPanicked (@Draw Sample.collaborators (NewDitherAnimation FloydSteinberg 0)
                (inl (Sample.blank (Rect 0 0 2 2))) (Rect 0 0 2 2) Sample.gray)
  = true.
Proof.
  destruct (@Draw_zero_frame_count_panics Sample.collaborators
              (NewDitherAnimation FloydSteinberg 0)
              (Sample.blank (Rect 0 0 2 2)) (Rect 0 0 2 2) Sample.gray)
    as (Hpanic & _); [reflexivity | exact Hpanic].
Defined.

(** X9: on a rectangle without pixels (its maximum not beyond its minimum
    on one axis) and with a frame count other than 0, [Draw] returns
    without writing or sending anything, even when the palette is
    empty. *)
Theorem Draw_empty_rectangle `{Collaborators} (dit : Dither)
    (d : Paletted) (rect : Rectangle) (src : Z -> Z -> Color) :
  nbFrames dit <> 0 ->
  ptX (rMax rect) <= ptX (rMin rect) \/ ptY (rMax rect) <= ptY (rMin rect) ->
  drPanicked (Draw dit (inl d) rect src) = false
  /\ drLog (Draw dit (inl d) rect src) = []
  /\ drDst (Draw dit (inl d) rect src) = inl d
  /\ drBlocked (Draw dit (inl d) rect src) = false.
Proof.
  intros Hn Hempty. unfold Draw.
  destruct (Z.eqb_spec (nbFrames dit) 0) as [?|_]; [contradiction|].
  assert (Hloops : forall s,
            Draw_loops dit rect src (palPalette d) (findShift (Matrix dit))
              (pixPerFrame rect (nbFrames dit)) s = Returned s).
  { intros s. unfold Draw_loops. destruct Hempty as [Hx|Hy].
    - apply for_each_skip. intros y s'. unfold columns.
      rewrite seqZ_nil by lia. reflexivity.
    - unfold rows. rewrite seqZ_nil by lia. reflexivity. }
  rewrite Hloops. cbn. auto.
Qed.

Lemma Draw_empty_rectangle_witness :
  drLog (@Draw Sample.collaborators (NewDither FloydSteinberg)
           (inl (Sample.blank (Rect 0 0 2 2))) (Rect 1 1 1 2) Sample.gray)
  = [].
Proof.
  destruct (@Draw_empty_rectangle Sample.collaborators (NewDither FloydSteinberg)
              (Sample.blank (Rect 0 0 2 2)) (Rect 1 1 1 2) Sample.gray)
    as (_ & Hlog & _); [discriminate | left; cbn; lia | exact Hlog].
Defined.

(** X10: with an empty palette, a frame count other than 0 and a
    rectangle that has a pixel, [Draw] panics at the first pixel, inside
    [findColor], before anything is written. *)
Theorem Draw_empty_palette_panics `{Collaborators} (dit : Dither)
    (d : Paletted) (rect : Rectangle) (src : Z -> Z -> Color) :
  palPalette d = [] -> nbFrames dit <> 0 ->
  ptX (rMin rect) < ptX (rMax rect) -> ptY (rMin rect) < ptY (rMax rect) ->
  drPanicked (Draw dit (inl d) rect src) = true
  /\ drLog (Draw dit (inl d) rect src) = []
  /\ drDst (Draw dit (inl d) rect src) = inl d.
Proof.
  intros Hp Hn Hx Hy. unfold Draw.
  destruct (Z.eqb_spec (nbFrames dit) 0) as [?|_]; [contradiction|].
  unfold Draw_loops, rows, columns.
  rewrite (seqZ_cons (ptY (rMin rect))), (seqZ_cons (ptX (rMin rect))) by lia.
  cbn [for_each]. unfold Draw_pixel at 1. rewrite Hp. cbn. auto.
Qed.

Lemma Draw_empty_palette_panics_witness :
  drPanicked (@Draw Sample.collaborators (NewDither FloydSteinberg)
                (inl (mkPaletted (Rect 0 0 2 2) [] (fun _ _ => 0)))
                (Rect 0 0 2 2) Sample.gray)
  = true.
Proof.
  destruct (@Draw_empty_palette_panics Sample.collaborators
              (NewDither FloydSteinberg)
              (mkPaletted (Rect 0 0 2 2) [] (fun _ _ => 0))
              (Rect 0 0 2 2) Sample.gray)
    as (Hpanic & _);
    [reflexivity | discriminate | cbn; lia | cbn; lia | exact Hpanic].
Defined.

Section DrawMore.

Context `{Collaborators}.

Variables (dit : Dither) (rect : Rectangle) (src : Z -> Z -> Color)
          (p : list Color) (shift ppf : Z).

Lemma Draw_pixel_zero_stride_panics (y x : Z) (s : DrawState) :
  ppf = 0 -> x <> 0 -> y <> 0 ->
  panicked (Draw_pixel dit rect src p shift ppf y x s) = true.
Proof.
  intros Hppf Hx Hy.
  destruct (Draw_pixel_cases dit rect src p shift ppf y x s)
    as [[-> _] | [(st & _ & Hpan & _) | (st & due & Hdue & _)]].
  - reflexivity.
  - exact Hpan.
  - unfold frame_due in Hdue. rewrite Hppf in Hdue.
    destruct (Z.eqb_spec y 0); [contradiction|].
    destruct (Z.eqb_spec x 0); [contradiction|]. discriminate.
Qed.

Lemma Draw_pixel_zero_stride_not_blocked (y x : Z) (s : DrawState) :
  ppf = 0 -> blocked (Draw_pixel dit rect src p shift ppf y x s) = false.
Proof.
  intros Hppf. unfold Draw_pixel.
  destruct (findColor _ _ p) as [[[r e] dd]|]; [|reflexivity].
  unfold frame_due. rewrite Hppf.
  destruct (negb (y =? 0) && negb (x =? 0)); reflexivity.
Qed.

Lemma findColor_color (err pix : Color) (r : RGBA) (e : PixelError) (dd : Z) :
  findColor err pix p = Some (r, e, dd) ->
  exists col, col ∈ p /\ r = entry_color col.
Proof.
  rewrite findColor_unfold.
  destruct (p !! _) as [col|] eqn:Hcol; [|discriminate].
  intros Heq. injection Heq as <- _ _. exists col.
  split; [|reflexivity]. apply list_elem_of_lookup. eauto.
Qed.

Lemma Draw_pixel_palette_colors (y x : Z) (s : DrawState) :
  (forall st, st ∈ dsLog s -> exists col, col ∈ p /\ stColor st = entry_color col) ->
  forall st, st ∈ dsLog (state_of (Draw_pixel dit rect src p shift ppf y x s)) ->
             exists col, col ∈ p /\ stColor st = entry_color col.
Proof.
  intros Hlog st. unfold Draw_pixel.
  destruct (findColor _ _ p) as [[[r e] dd]|] eqn:Hfind; [|apply Hlog].
  apply findColor_color in Hfind.
  destruct (frame_due rect ppf x y) as [[|]|];
    [destruct (take_frame (dsReceives s))| |]; cbn [state_of dsLog];
    intros Hst; apply elem_of_app in Hst as [Hold|Hnew];
    try (apply Hlog, Hold);
    apply list_elem_of_singleton in Hnew as ->; exact Hfind.
Qed.

Lemma Draw_loops_palette_colors (s : DrawState) :
  (forall st, st ∈ dsLog s -> exists col, col ∈ p /\ stColor st = entry_color col) ->
  forall st, st ∈ dsLog (state_of (Draw_loops dit rect src p shift ppf s)) ->
             exists col, col ∈ p /\ stColor st = entry_color col.
Proof.
  intros Hs. unfold Draw_loops.
  apply (for_each_inv _
           (fun s => forall st, st ∈ dsLog s ->
                       exists col, col ∈ p /\ stColor st = entry_color col));
    [|exact Hs].
  intros y _ s1 Hs1.
  apply (for_each_inv _
           (fun s => forall st, st ∈ dsLog s ->
                       exists col, col ∈ p /\ stColor st = entry_color col));
    [|exact Hs1].
  intros x _ s2 Hs2. apply Draw_pixel_palette_colors, Hs2.
Qed.

Lemma replay_rect_palette (d : Paletted) (log : list PixelStep) :
  palRect (replay d log) = palRect d
  /\ palPalette (replay d log) = palPalette d.
Proof.
  induction log as [|st log IH] using rev_ind; [auto|].
  rewrite replay_snoc, Paletted_Set_rect, Paletted_Set_palette. exact IH.
Qed.

Lemma ColorIndexAt_set_same (q : Paletted) (x y : Z) (c : RGBA) :
  Point_In x y (palRect q) = true ->
  ColorIndexAt (Paletted_Set q x y c) x y
  = u8 (Palette_Index (palPalette q) (RGBA_RGBA c)).
Proof.
  intros Hin. unfold Paletted_Set. rewrite Hin.
  unfold ColorIndexAt. cbn [palRect palPix]. rewrite Hin, !Z.eqb_refl.
  reflexivity.
Qed.

(** After writes at points that are all different, each point inside the
    bounds holds the index of the color written there. *)
Lemma replay_index (d : Paletted) (log : list PixelStep) :
  NoDup (points log) ->
  forall st, st ∈ log ->
    Point_In (stX st) (stY st) (palRect d) = true ->
    ColorIndexAt (replay d log) (stX st) (stY st)
    = u8 (Palette_Index (palPalette d) (RGBA_RGBA (stColor st))).
Proof.
  induction log as [|st' log IH] using rev_ind; intros Hnd st Hst Hin.
  - apply elem_of_nil in Hst. contradiction.
  - unfold points in Hnd. rewrite fmap_app in Hnd.
    apply NoDup_app in Hnd as (Hnd & Hfresh & _).
    destruct (replay_rect_palette d log) as (Hrect & Hpal).
    rewrite replay_snoc.
    apply elem_of_app in Hst as [Hold|Hnew].
    + rewrite ColorIndexAt_set_other; [apply IH; assumption|].
      intros Heq. apply (Hfresh (stX st, stY st)).
      * apply (list_elem_of_fmap_2 (fun st => (stX st, stY st))). exact Hold.
      * cbn. rewrite Heq. left.
    + apply list_elem_of_singleton in Hnew as ->.
      rewrite ColorIndexAt_set_same by (rewrite Hrect; exact Hin).
      rewrite Hpal. reflexivity.
Qed.

End DrawMore.

(** X11: when the stride is 0 (a frame count above the pixel count), the
    palette is not empty and the rectangle has a pixel with x and y both
    other than 0, [Draw] panics, on the remainder by zero; no frame has
    been sent. *)
Theorem Draw_zero_stride_panics `{Collaborators} (dit : Dither)
    (d : Paletted) (rect : Rectangle) (src : Z -> Z -> Color) (x y : Z) :
  nbFrames dit <> 0 -> pixPerFrame rect (nbFrames dit) = 0 ->
  Point_In x y rect = true -> x <> 0 -> y <> 0 ->
  drPanicked (Draw dit (inl d) rect src) = true
  /\ forall st, st ∈ drLog (Draw dit (inl d) rect src) -> sent st = false.
Proof.
  intros Hn Hppf Hin Hx Hy. split.
  - unfold Draw.
    destruct (Z.eqb_spec (nbFrames dit) 0) as [?|_]; [contradiction|].
    cbn [drPanicked]. unfold Draw_loops.
    apply Point_In_spec in Hin.
    apply (for_each_panics _ (rows rect) y).
    + unfold rows. apply elem_of_seqZ. lia.
    + intros s. apply (for_each_panics _ (columns rect) x).
      * unfold columns. apply elem_of_seqZ. lia.
      * intros s'. apply Draw_pixel_zero_stride_panics; assumption.
      * intros x' s'. apply Draw_pixel_zero_stride_not_blocked, Hppf.
    + intros y' s.
      apply (for_each_not_blocked _ (fun _ => True)); [|exact I].
      intros x' _ s' _. split; [|exact I].
      apply Draw_pixel_zero_stride_not_blocked, Hppf.
  - intros st Hst.
    destruct (Draw_paletted_log dit d rect src) as (_ & Hlog).
    destruct (Hlog st Hst) as (_ & Hsent). rewrite Hppf in Hsent.
    destruct (sent st); [|reflexivity]. exfalso.
    apply (frame_due_stride_zero rect (stX st) (stY st)), Hsent. reflexivity.
Qed.

Lemma Draw_zero_stride_panics_witness :
  drPanicked (@Draw Sample.collaborators (NewDitherAnimation FloydSteinberg 5)
                (inl (Sample.blank (Rect 0 0 2 2))) (Rect 0 0 2 2) Sample.gray)
  = true.
Proof.
  destruct (@Draw_zero_stride_panics Sample.collaborators
              (NewDitherAnimation FloydSteinberg 5)
              (Sample.blank (Rect 0 0 2 2)) (Rect 0 0 2 2) Sample.gray 1 1)
    as (Hpanic & _);
    [discriminate | reflexivity | reflexivity | discriminate | discriminate
    | exact Hpanic].
Defined.

(** X12: with a palette, a frame count and a stride other than zero
    [Draw] does not panic, and it does not block when every frame it
    sends is received; and whenever it returns (it neither panics nor
    blocks) it has called [Set] once for each pixel of the rectangle and
    for no other point, row by row from the top, each row from the
    left. *)
Theorem Draw_visits_every_pixel_once `{Collaborators} (dit : Dither)
    (d : Paletted) (rect : Rectangle) (src : Z -> Z -> Color) :
  (palPalette d <> [] -> nbFrames dit <> 0 ->
   pixPerFrame rect (nbFrames dit) <> 0 ->
   drPanicked (Draw dit (inl d) rect src) = false
   /\ (receivers = None -> drBlocked (Draw dit (inl d) rect src) = false))
  /\ (drPanicked (Draw dit (inl d) rect src) = false ->
      drBlocked (Draw dit (inl d) rect src) = false ->
      points (drLog (Draw dit (inl d) rect src)) = pixels rect
      /\ NoDup (points (drLog (Draw dit (inl d) rect src)))
      /\ forall x y, (x, y) ∈ points (drLog (Draw dit (inl d) rect src))
                     <-> Point_In x y rect = true).
Proof.
  split.
  - intros Hp Hn Hppf. apply Draw_paletted_returns; assumption.
  - intros Hnp Hnb.
    rewrite (Draw_returned_points dit d rect src Hnp Hnb).
    split; [reflexivity|]. split; [apply NoDup_pixels|].
    intros x y. apply pixels_spec.
Qed.

Lemma Draw_visits_every_pixel_once_witness :
  points
    (drLog (@Draw Sample.collaborators (NewDither FloydSteinberg)
              (inl (Sample.blank (Rect 1 1 3 3))) (Rect 1 1 3 3) Sample.gray))
  = pixels (Rect 1 1 3 3).
Proof.
  destruct (@Draw_visits_every_pixel_once Sample.collaborators
              (NewDither FloydSteinberg)
              (Sample.blank (Rect 1 1 3 3)) (Rect 1 1 3 3) Sample.gray)
    as (Hreturns & Hvisits).
  destruct Hreturns as (Hnp & Hnb); [discriminate ..|].
  destruct (Hvisits Hnp (Hnb eq_refl)) as (Hpts & _). exact Hpts.
Defined.

(** X13: every color [Draw] passes to [Set] is opaque and made of the
    low bytes of an entry of the destination's palette. *)
Theorem Draw_writes_palette_colors `{Collaborators} (dit : Dither)
    (d : Paletted) (rect : Rectangle) (src : Z -> Z -> Color) (st : PixelStep) :
  st ∈ drLog (Draw dit (inl d) rect src) ->
  exists col, col ∈ palPalette d
              /\ stColor st = entry_color col /\ rgbaA (stColor st) = 255.
Proof.
  unfold Draw. destruct (nbFrames dit =? 0).
  - cbn. intros Hst. apply elem_of_nil in Hst. contradiction.
  - cbn [drLog]. intros Hst.
    destruct (Draw_loops_palette_colors dit rect src (palPalette d)
                (findShift (Matrix dit)) (pixPerFrame rect (nbFrames dit))
                (mkDrawState d (NewErrorImage rect) [] receivers)) with (st := st)
      as (col & Hcol & Heq).
    + intros st' Hst'. apply elem_of_nil in Hst'. contradiction.
    + exact Hst.
    + exists col. split; [exact Hcol|]. split; [exact Heq|].
      rewrite Heq. reflexivity.
Qed.

Lemma Draw_writes_palette_colors_witness :
  exists col, col ∈ [Black; White]
              /\ mkRGBA 255 255 255 255 = entry_color col.
Proof.
  destruct (@Draw_writes_palette_colors Sample.collaborators
              (NewDither FloydSteinberg)
              (Sample.blank (Rect 0 0 1 1)) (Rect 0 0 1 1) Sample.gray
              (mkPixelStep 0 0 (mkRGBA 255 255 255 255) None))
    as (col & Hcol & Heq & _).
  - vm_compute. left.
  - exists col. split; [exact Hcol | exact Heq].
Defined.

(** X14: when [Draw] returns (it neither panics nor blocks), [Set] was
    called at every pixel of the rectangle with a color made of a palette
    entry, and every such pixel that lies inside the destination's bounds
    holds the palette index, as a [uint8], that the palette gives for the
    color chosen at that pixel. *)
Theorem Draw_final_indices `{Collaborators} (dit : Dither)
    (d : Paletted) (rect : Rectangle) (src : Z -> Z -> Color) :
  drPanicked (Draw dit (inl d) rect src) = false ->
  drBlocked (Draw dit (inl d) rect src) = false ->
  exists d' : Paletted,
    drDst (Draw dit (inl d) rect src) = inl d'
    /\ forall x y, Point_In x y rect = true ->
         exists st, st ∈ drLog (Draw dit (inl d) rect src)
           /\ stX st = x /\ stY st = y
           /\ (exists col, col ∈ palPalette d /\ stColor st = entry_color col)
           /\ (Point_In x y (palRect d) = true ->
               ColorIndexAt d' x y
               = u8 (Palette_Index (palPalette d) (RGBA_RGBA (stColor st)))).
Proof.
  intros Hnp Hnb.
  destruct (Draw_paletted_log dit d rect src) as (Hdst & _).
  pose proof (Draw_returned_points dit d rect src Hnp Hnb) as Hpts.
  exists (replay d (drLog (Draw dit (inl d) rect src))).
  split; [exact Hdst|]. intros x y Hin.
  assert (Hxy : (x, y) ∈ points (drLog (Draw dit (inl d) rect src)))
    by (rewrite Hpts; apply pixels_spec; exact Hin).
  apply list_elem_of_fmap in Hxy as (st & Heq & Hst).
  injection Heq as -> ->.
  exists st. split; [exact Hst|]. split; [reflexivity|]. split; [reflexivity|].
  split.
  - revert Hst. unfold Draw. destruct (nbFrames dit =? 0).
    + cbn. intros Hst. apply elem_of_nil in Hst. contradiction.
    + cbn [drLog]. apply Draw_loops_palette_colors.
      intros st' Hst'. apply elem_of_nil in Hst'. contradiction.
  - intros Hbounds. apply replay_index; [|exact Hst|exact Hbounds].
    rewrite Hpts. apply NoDup_pixels.
Qed.

Lemma Draw_final_indices_witness :
  exists d' : Paletted,
    drDst (@Draw Sample.collaborators (NewDither FloydSteinberg)
             (inl (Sample.blank (Rect 0 0 2 2))) (Rect 0 0 2 2) Sample.gray)
    = inl d'
    /\ exists st,
         st ∈ drLog (@Draw Sample.collaborators (NewDither FloydSteinberg)
                       (inl (Sample.blank (Rect 0 0 2 2))) (Rect 0 0 2 2)
                       Sample.gray)
         /\ stX st = 1 /\ stY st = 1
         /\ ColorIndexAt d' 1 1
            = u8 (@Palette_Index Sample.collaborators [Black; White]
                    (RGBA_RGBA (stColor st))).
Proof.
  destruct (@Draw_final_indices Sample.collaborators (NewDither FloydSteinberg)
              (Sample.blank (Rect 0 0 2 2)) (Rect 0 0 2 2) Sample.gray)
    as (d' & Hdst & Hpix); [vm_compute; reflexivity ..|].
  exists d'. split; [exact Hdst|].
  destruct (Hpix 1 1) as (st & Hst & HX & HY & _ & Hindex); [reflexivity|].
  exists st. split; [exact Hst|]. split; [exact HX|]. split; [exact HY|].
  apply Hindex. reflexivity.
Defined.

(** On a rectangle at the origin no multiple of the pixel count is met at
    a pixel with x and y both other than 0. *)
Lemma frame_due_origin_single (w h x y : Z) :
  0 <= w < 2 ^ 31 -> 0 <= h < 2 ^ 31 ->
  0 <= x < w -> 0 <= y < h ->
  frame_due (Rect 0 0 w h) (pixPerFrame (Rect 0 0 w h) 1) x y <> Some true.
Proof.
  intros Hw Hh Hx Hy.
  assert (Hwh : 0 < w * h < 2 ^ 62) by nia.
  unfold frame_due, pixPerFrame, Dx, Dy. cbn [Rect rMin rMax ptX ptY].
  rewrite !Z.sub_0_r, (int_small w), (int_small h) by lia.
  rewrite (int_small (w * h)) by lia. rewrite Z.quot_1_r.
  rewrite (int_small (w * h)) by lia.
  assert (Hyh : 0 <= y * h < 2 ^ 62) by nia.
  rewrite (int_small (y * h)), (int_small (y * h + x)) by lia.
  destruct (Z.eqb_spec y 0) as [?|Hy0]; [cbn; discriminate|].
  destruct (Z.eqb_spec x 0) as [?|Hx0]; [cbn; discriminate|].
  cbn [negb andb].
  destruct (Z.eqb_spec (w * h) 0) as [?|_]; [discriminate|].
  destruct (Z.eqb_spec (Z.rem (y * h + x) (w * h)) 0) as [Hrem|_];
    [|discriminate].
  exfalso.
  pose proof (Z.quot_rem' (y * h + x) (w * h)) as Hdiv.
  rewrite Hrem, Z.add_0_r in Hdiv.
  set (k := Z.quot (y * h + x) (w * h)) in Hdiv.
  assert (Hk : 1 <= k) by nia.
  assert (Hxh : x = h * (k * w - y)) by nia.
  assert (Ht : 1 <= k * w - y) by nia.
  assert (Hhx : h <= x) by nia.
  assert (Hlt : y * h + x < w * h) by nia.
  nia.
Qed.

(** X15: on a rectangle whose minimum is the origin (sides below 2^31),
    an engine with a frame count of 1, such as [NewDither] builds, sends
    no frame at any pixel of the scan. *)
Theorem Draw_origin_single_frame_never_sends `{Collaborators} (dit : Dither)
    (d : Paletted) (w h : Z) (src : Z -> Z -> Color) (st : PixelStep) :
  nbFrames dit = 1 -> 0 <= w < 2 ^ 31 -> 0 <= h < 2 ^ 31 ->
  st ∈ drLog (Draw dit (inl d) (Rect 0 0 w h) src) ->
  sent st = false.
Proof.
  intros Hn Hw Hh Hst.
  destruct (Draw_paletted_log dit d (Rect 0 0 w h) src) as (_ & Hlog).
  destruct (Hlog st Hst) as (Hin & Hsent). rewrite Hn in Hsent.
  apply Point_In_spec in Hin. cbn in Hin.
  destruct (sent st); [|reflexivity]. exfalso.
  apply (frame_due_origin_single w h (stX st) (stY st)); try lia.
  apply Hsent. reflexivity.
Qed.

Lemma Draw_origin_single_frame_never_sends_witness :
  sent (mkPixelStep 1 1 (mkRGBA 255 255 255 255) None) = false.
Proof.
  apply (@Draw_origin_single_frame_never_sends Sample.collaborators
           (NewDither FloydSteinberg) (Sample.blank (Rect 0 0 2 2)) 2 2
           Sample.gray (mkPixelStep 1 1 (mkRGBA 255 255 255 255) None));
    [reflexivity | lia | lia |].
  vm_compute. right. right. right. left.
Defined.

(** * Range of the alignment *)

Lemma findShift_row_range (v1 : list float32) : forall (j s : Z),
  findShift_row j v1 = Some s ->
  2 - j - Z.of_nat (length v1) <= s <= 1 - j.
Proof.
  induction v1 as [|v2 v1 IH]; intros j s Hs; [discriminate|].
  cbn [findShift_row] in Hs. cbn [length].
  destruct (f32_gt0 v2).
  - injection Hs as <-. lia.
  - apply IH in Hs. lia.
Qed.

(** X16: [findShift] never exceeds 1, and is not below 2 - n when no row
    of the kernel is longer than n (n at least 2): the first positive
    weight of a row of n cells is at column n - 1 at most. *)
Theorem findShift_range (matrix : list (list float32)) (n : Z) :
  2 <= n ->
  (forall v1, v1 ∈ matrix -> Z.of_nat (length v1) <= n) ->
  2 - n <= findShift matrix <= 1.
Proof.
  intros Hn Hrows. induction matrix as [|v1 matrix IH]; cbn [findShift]; [lia|].
  destruct (findShift_row 0 v1) as [s|] eqn:Hrow.
  - apply findShift_row_range in Hrow.
    pose proof (Hrows v1 ltac:(left)). lia.
  - apply IH. intros v Hv. apply Hrows. right. exact Hv.
Qed.

Lemma findShift_range_witness : 2 - 4 <= findShift Atkinson <= 1.
Proof.
  apply findShift_range; [lia|].
  intros v1 Hv1.
  repeat (apply elem_of_cons in Hv1 as [->|Hv1]);
    [cbn; lia .. | apply elem_of_nil in Hv1; contradiction].
Defined.
